(** * Thompson sampling with random Fourier features: a shallow embedding

    This development embeds [fourier_features.py] and [objectives.py] and
    proves the properties stated about them.

    Conventions of the embedding.
    - Numbers.  The program computes on [float64]; the embedding computes in
      exact arithmetic over an arbitrary real field [R] ([realFieldType]).
      [tf.cos] and [tf.sqrt] are library functions: they are parameters
      [cos] and [sqrt] of the development, so that every theorem holds for
      whatever these functions are.
    - Tensors.  A rank-3 tensor of shape [(count, n, d)] is a family of
      [count] matrices of shape [(n, d)]; the batched matrix product [@] of
      TensorFlow is the matrix product taken at every batch index.
    - Exceptions.  Code that can raise returns a [result]; the constructor
      [Raise] carries the Python exception class.
    - Randomness.  Every draw from a random number generator is an explicit
      argument holding the value that was drawn.
    - [print] calls are not modelled. *)

From HB Require Import structures.
From mathcomp Require Import boot order algebra.

Set Implicit Arguments.
Unset Strict Implicit.
Unset Printing Implicit Defensive.

Import GRing.Theory Num.Theory Order.Theory.
Local Open Scope ring_scope.

(** ** Exceptions and the error monad *)

(** The exception classes the two source files can raise. *)
Inductive exn : Type :=
  | InvalidArgumentError   (* tf.errors.InvalidArgumentError *)
  | ZeroDivisionError      (* Python: float division by zero *)
  | ValueError             (* Python / numpy ValueError *)
  | IndexError             (* Python / numpy IndexError *)
  | AttributeError         (* Python AttributeError *)
  | AxisError.             (* numpy.exceptions.AxisError *)

Inductive result (A : Type) : Type :=
  | Return (a : A)
  | Raise (e : exn).

Arguments Return {A} a.
Arguments Raise {A} e.

Definition bind {A B : Type} (m : result A) (k : A -> result B) : result B :=
  match m with
  | Return a => k a
  | Raise e => Raise e
  end.

Notation "'Do' x '<--' m ; k" := (bind m (fun x => k))
  (at level 200, x name, m at level 100, k at level 200,
   format "'[v' 'Do'  x  '<--'  m ; '/' k ']'").

(** Python list indexing [l[i]] with a non-negative index. *)
Definition list_getitem {A : Type} (l : seq A) (i : nat) : result A :=
  if nth None (map Some l) i is Some a then Return a else Raise IndexError.

Section FourierFeatures.

Variable R : realFieldType.

(** [tf.cos] and [tf.sqrt]. *)
Variables (cos sqrt : R -> R).

(** A tensor of shape [(count, n, d)]. *)
Definition tensor (count n d : nat) : Type := 'I_count -> 'M[R]_(n, d).

(** ** [fourier_features] *)

(** Adding a column [b] of shape [(D, 1)] to a matrix of shape [(D, n)]
    broadcasts the column over the [n] columns. *)
Definition add_bcast_col (D n : nat) (A : 'M[R]_(D, n)) (b : 'cV[R]_D) :
  'M[R]_(D, n) :=
  \matrix_(j, i) (A j i + b j 0).

(** [D = W.shape[1]]; [2.0 / D] is a Python division of a float by an [int]
    and raises [ZeroDivisionError] when [D] is [0]. *)
Definition fourier_features (count n d D : nat)
    (X : tensor count n d) (W : tensor count D d) (b : tensor count D 1) :
    result (tensor count n D) :=
  let WX_b : tensor count D n :=
    fun c => add_bcast_col (W c *m (X c)^T) (b c) in
  if D == 0%N then Raise ZeroDivisionError
  else Return (fun c => sqrt (2 / D%:R) *: map_mx cos (WX_b c)^T).

(** ** Kernels and [sample_fourier_features] *)

(** The value of [k.lengthscale.numpy()]: a 0-d array (one lengthscale) or a
    1-d array (one lengthscale per input dimension). *)
Inductive nparray : Type :=
  | Scalar (v : R)
  | Vector (v : seq R).

(** A kernel is a stationary kernel with a [lengthscale] attribute, or a
    [gpflow.kernels.base.Product] with its list [kernels]. *)
Inductive Kernel : Type :=
  | Stationary (lengthscale : nparray)
  | Product (kernels : seq Kernel).

(** [k.lengthscale]: a [Product] has no such attribute. *)
Definition get_lengthscale (k : Kernel) : result nparray :=
  match k with
  | Stationary l => Return l
  | Product _ => Raise AttributeError
  end.

(** The right-hand side of [lengthscales[i] = lengthscale_val]: numpy stores
    a 0-d array or an array with a single element, and raises [ValueError]
    ("setting an array element with a sequence") for any other array. *)
Definition as_element (v : nparray) : result R :=
  match v with
  | Scalar r => Return r
  | Vector [:: r] => Return r
  | Vector _ => Raise ValueError
  end.

(** The body of [for i in range(input_dims)], run over the indices [idxs]. *)
Fixpoint mirror_loop (kernels : seq Kernel) (input_dims : nat)
    (idxs : seq nat) (lengthscales : seq R) : result (seq R) :=
  if idxs is i :: idxs' then
    Do k <-- list_getitem kernels i;
    Do lengthscale_val <-- get_lengthscale k;
    Do v <-- as_element lengthscale_val;
    mirror_loop kernels input_dims idxs'
      (set_nth 0 (set_nth 0 lengthscales i v) (i + input_dims) v)
  else Return lengthscales.

(** Lines 33-42: the lengthscales read from the kernel. *)
Definition build_lengthscales (kernel : Kernel) (d : nat) : result nparray :=
  match kernel with
  | Product kernels =>
      let input_dims := (d %/ 2)%N in
      Do lengthscales <--
        mirror_loop kernels input_dims (iota 0 input_dims) (nseq d 0);
      Return (Vector lengthscales)
  | Stationary lengthscale => Return lengthscale
  end.

(** [stddev = 1.0 / lengthscales], broadcast against the last axis of the
    shape [(count, D, d)]; TensorFlow raises [InvalidArgumentError] when the
    shapes are incompatible.  (A zero lengthscale gives [inf] in numpy; the
    field inverse of [0] is [0].  The program leaves such lengthscales to the
    caller and nothing below depends on them.) *)
Definition stddev_of (d : nat) (lengthscales : nparray) : result 'rV[R]_d :=
  match lengthscales with
  | Scalar l => Return (const_mx (1 / l))
  | Vector ls =>
      if size ls == d then Return (\row_k (1 / nth 0 ls k))
      else if size ls == 1%N then Return (const_mx (1 / nth 0 ls 0))
      else Raise InvalidArgumentError
  end.

(** [normal_W] is the standard normal draw behind [tf.random.normal], which
    scales it by [stddev] and adds the mean [0]; [uniform_b] is the value
    drawn by [tf.random.uniform] on [[0, 2 pi)]. *)
Definition sample_fourier_features (count n d : nat)
    (X : tensor count n d) (kernel : Kernel) (D : nat)
    (normal_W : tensor count D d) (uniform_b : tensor count D 1) :
    result (tensor count n D * tensor count D d * tensor count D 1) :=
  Do lengthscales <-- build_lengthscales kernel d;
  Do stddev <-- stddev_of d lengthscales;
  let W : tensor count D d :=
    fun c => \matrix_(j, k) (normal_W c j k * stddev 0 k + 0) in
  let b := uniform_b in
  Do phi <-- fourier_features X W b;
  Return (phi, W, b).

Arguments sample_fourier_features {count n d} X kernel D normal_W uniform_b.

(** ** [sample_theta_variational] *)

(** [tf.linalg.inv] on a batch of square matrices: raises
    [InvalidArgumentError] when some matrix of the batch is not invertible.
    This is the behaviour the source relies on ("this will be thrown if
    matrix inversion fails"), and what the factorisation of TensorFlow does
    in exact arithmetic, where it meets a zero pivot on every singular
    matrix; on [float64] a singular matrix can go undetected. *)
Definition linalg_inv (count m : nat) (A : tensor count m m) :
    result (tensor count m m) :=
  if [forall c, A c \in unitmx] then Return (fun c => invmx (A c))
  else Raise InvalidArgumentError.

(** [standard_normal_samples], of shape [(count, n)], is the value drawn from
    the standard normal distribution.  [q_sqrt] has shape [(1, n, n)] and
    [q_mu] shape [(n, 1)]: both broadcast over the batch. *)
Definition sample_theta_variational (count n D : nat)
    (phi : tensor count n D) (q_mu : 'M[R]_(n, 1)) (q_sqrt : tensor 1 n n)
    (standard_normal_samples : 'M[R]_(count, n)) :
    result (tensor count D 1) :=
  let q_samples : tensor count n 1 :=
    fun c => q_sqrt ord0 *m (row c standard_normal_samples)^T + q_mu in
  let transposed_phi : tensor count D n := fun c => (phi c)^T in
  Do transform_mat <--
    (if (n >= D)%N then
       Do inv <-- linalg_inv (fun c => transposed_phi c *m phi c);
       Return (fun c => inv c *m transposed_phi c)
     else
       Do inv <-- linalg_inv (fun c => phi c *m transposed_phi c);
       Return (fun c => transposed_phi c *m inv c));
  let theta : tensor count D 1 := fun c => transform_mat c *m q_samples c in
  Return theta.

(** ** [sample_features_weights] *)

(** The part of a fitted [gpflow] model the program reads. *)
Record gp_model (n : nat) : Type := GPModel {
  kernel : Kernel;
  q_mu : 'M[R]_(n, 1);
  q_sqrt : tensor 1 n n
}.

(** The values drawn by the random number generators during one pass through
    the body of the [try] block. *)
Record draws (count n d D : nat) : Type := Draws {
  normal_W : tensor count D d;
  uniform_b : tensor count D 1;
  standard_normal_samples : 'M[R]_(count, n)
}.

Definition sampled (count n d D : nat) : Type :=
  (tensor count n D * tensor count D d * tensor count D 1 *
   tensor count D 1)%type.

(** The body of the [try] block (lines 96-97), run on fresh draws [r]. *)
Definition try_sample (count n d : nat) (X : tensor count n d)
    (model : gp_model n) (D : nat) (r : draws count n d D) :
    result (sampled count n d D) :=
  Do phi_W_b <--
    sample_fourier_features X (kernel model) D (normal_W r) (uniform_b r);
  let '(phi, W, b) := phi_W_b in
  Do theta <--
    sample_theta_variational phi (q_mu model) (q_sqrt model)
      (standard_normal_samples r);
  Return (phi, W, b, theta).

Arguments try_sample {count n d} X model D r.

(** The [while not invertible] loop.  [rng k] holds the draws of the pass
    number [k]; [attempts] counts the passes made so far, and the loop
    returns it next to its outcome.  [fuel] bounds the number of passes of
    the model; [None] means the fuel ran out. *)
Fixpoint retry_loop (count n d : nat) (X : tensor count n d)
    (model : gp_model n) (D : nat) (rng : nat -> draws count n d D)
    (fuel attempts fail_count : nat) :
    option (nat * result (sampled count n d D)) :=
  if fuel is fuel'.+1 then
    match try_sample X model D (rng attempts) with
    | Return r =>
        (* invertible = True; the test on fail_count follows the try block *)
        if (fail_count >= 100)%N then Some (attempts.+1, Raise ValueError)
        else Some (attempts.+1, Return r)
    | Raise InvalidArgumentError =>
        let fail_count := fail_count.+1 in
        if (fail_count >= 100)%N then Some (attempts.+1, Raise ValueError)
        else retry_loop X model rng fuel' attempts.+1 fail_count
    | Raise e => Some (attempts.+1, Raise e)
    end
  else None.

Arguments retry_loop {count n d} X model D rng fuel attempts fail_count.

(** [invertible = False; fail_count = 0; while ...]: one hundred passes of
    fuel are enough (theorem [sample_features_weights_total]). *)
Definition sample_features_weights (count n d : nat) (X : tensor count n d)
    (model : gp_model n) (D : nat) (rng : nat -> draws count n d D) :
    option (nat * result (sampled count n d D)) :=
  retry_loop X model D rng 100 0 0.

Arguments sample_features_weights {count n d} X model D rng.

(** ** [sample_maximizers] *)

(** [tf.reduce_mean] of a tensor of shape [(count, m, 1)].  (The mean of an
    empty tensor is [nan] in TensorFlow; it is [0] here.) *)
Definition reduce_mean (count m : nat) (t : tensor count m 1) : R :=
  (\sum_c \sum_i t c i 0) / (count * m)%:R.

(** [tf.clip_by_value(x, min_val, max_val)]: the minimum with the upper
    bound, then the maximum with the lower bound. *)
Definition clip_by_value (x clip_value_min clip_value_max : R) : R :=
  Num.max (Num.min x clip_value_max) clip_value_min.

(** The first index of a maximal value of [f] among [0, ..., m]. *)
Fixpoint argmax_upto (f : nat -> R) (m : nat) : nat :=
  if m is m'.+1 then
    let j := argmax_upto f m' in
    if f j < f m'.+1 then m'.+1 else j
  else 0%N.

(** [tf.math.argmax(fvals, axis=1)]: the smallest index of a maximal value
    in every row; [InvalidArgumentError] when the reduced axis is empty. *)
Definition math_argmax (count m : nat) :
    'M[R]_(count, m) -> result ('I_count -> 'I_m) :=
  match m with
  | 0%N => fun _ => Raise InvalidArgumentError
  | m'.+1 => fun fvals =>
      Return (fun c => inord (argmax_upto (fun i => fvals c (inord i)) m'))
  end.

(** The threshold [1e-7]. *)
Definition tolerance : R := (10 ^+ 7)^-1.

(** [abs((current_loss - prev_loss) / prev_loss) < 1e-7] on two numpy
    [float64] scalars.  The program does not test [prev_loss] before it
    divides.  When [prev_loss] is zero numpy does not raise: it emits a
    [RuntimeWarning], the quotient is [inf] or [nan], and the comparison is
    [False]; the first branch below is this outcome of the division, written
    out because the division of the field is total. *)
Definition converged (current_loss prev_loss : R) : bool :=
  if prev_loss == 0 then false
  else `|(current_loss - prev_loss) / prev_loss| < tolerance.

Section Optimizer.

(** [tf.keras.optimizers.RMSprop(rho=0.0)] is a parameter: [opt_state] holds
    its slot variables, [rmsprop_init] is their value at creation, and
    [rmsprop_update loss s x] is the update it computes for the variable [x]
    from the gradient of [loss], before the constraint of the variable is
    applied. *)
Variable opt_state : Type.
Variable rmsprop_init : opt_state.

Variables count n_init d : nat.

Variable rmsprop_update :
  (tensor count n_init d -> result R) -> opt_state ->
  tensor count n_init d -> opt_state * tensor count n_init d.

(** The constraint given to [tf.Variable] (line 145). *)
Definition constraint (min_val max_val : R) (x : tensor count n_init d) :
    tensor count n_init d :=
  fun c => map_mx (fun v => clip_by_value v min_val max_val) (x c).

(** [optimizer.minimize(loss, var_list=[x_star])]: the loss is evaluated to
    take its gradient, the variable is updated, and its constraint is
    applied to the updated value. *)
Definition minimize (min_val max_val : R)
    (loss : tensor count n_init d -> result R)
    (s : opt_state) (x_star : tensor count n_init d) :
    result (opt_state * tensor count n_init d) :=
  Do _ <-- loss x_star;
  let (s', x') := rmsprop_update loss s x_star in
  Return (s', constraint min_val max_val x').

(** The state of the optimization loop.  [updates] counts the calls to
    [minimize]; [zero_divide] records whether some evaluation of the stopping
    test divided by a zero [prev_loss]. *)
Record loop_state : Type := LoopState {
  optimizer : opt_state;
  x_star : tensor count n_init d;
  prev_loss : R;
  updates : nat;
  zero_divide : bool
}.

(** [for i in range(num_steps)] (lines 149-157); the argument counts the
    iterations that remain. *)
Fixpoint optimization_loop (min_val max_val : R)
    (loss : tensor count n_init d -> result R)
    (num_steps : nat) (st : loop_state) : result loop_state :=
  if num_steps is remaining.+1 then
    Do sx <-- minimize min_val max_val loss (optimizer st) (x_star st);
    Do current_loss <-- loss sx.2;
    let st' := LoopState sx.1 sx.2 (prev_loss st) (updates st).+1
                 (zero_divide st || (prev_loss st == 0)) in
    if converged current_loss (prev_loss st) then Return st'
    else
      optimization_loop min_val max_val loss remaining
        (LoopState (optimizer st') (x_star st') current_loss (updates st')
           (zero_divide st'))
  else Return st.

Variables n D : nat.

(** [construct_maximizer_objective] for the sampled [W], [b] and [theta]. *)
Definition construct_maximizer_objective
    (W : tensor count D d) (b : tensor count D 1) (theta : tensor count D 1)
    (x_star : tensor count n_init d) : result R :=
  Do phi <-- fourier_features x_star W b;
  let g := reduce_mean (fun c => phi c *m theta c) in
  Return (- g).

(** Lines 159-167: the function values of the candidates and, in every row,
    the candidate at the first maximal value. *)
Definition select_maximizers
    (W : tensor count D d) (b : tensor count D 1) (theta : tensor count D 1)
    (x_star : tensor count n_init d) : result 'M[R]_(count, d) :=
  Do phi_test <-- fourier_features x_star W b;
  let test : tensor count n_init 1 := fun c => phi_test c *m theta c in
  Do phi <-- fourier_features x_star W b;
  (* tf.squeeze(..., axis=2) *)
  let fvals : 'M[R]_(count, n_init) := \matrix_(c, i) (phi c *m theta c) i 0 in
  Do max_idxs <-- math_argmax fvals;
  let maximizers : 'M[R]_(count, d) :=
    \matrix_(c, k) x_star c (max_idxs c) k in
  Return maximizers.

(** [uniform_x] is the value drawn by [tf.random.uniform] for the initial
    candidates; the constraint of the variable is not applied to it.  The
    result is [None] only if the fuel of [sample_features_weights] ran out,
    which never happens. *)
Definition sample_maximizers (X : 'M[R]_(n, d)) (model : gp_model n)
    (min_val max_val : R) (num_steps : nat)
    (rng : nat -> draws count n d D) (uniform_x : tensor count n_init d) :
    option (result 'M[R]_(count, d)) :=
  let X : tensor count n d := fun _ => X in
  match sample_features_weights X model D rng with
  | None => None
  | Some (_, Raise e) => Some (Raise e)
  | Some (_, Return (phi, W, b, theta)) =>
      let loss := construct_maximizer_objective W b theta in
      Some (
        Do prev_loss <-- loss uniform_x;
        Do st <--
          optimization_loop min_val max_val loss num_steps
            (LoopState rmsprop_init uniform_x prev_loss 0 false);
        select_maximizers W b theta (x_star st))
  end.

(** The default value of [num_steps]. *)
Definition default_num_steps : nat := 3000.

End Optimizer.

End FourierFeatures.

Arguments sample_fourier_features [R] cos sqrt [count n d] X kernel D
  normal_W uniform_b.
Arguments try_sample [R] cos sqrt [count n d] X model D r.
Arguments retry_loop [R] cos sqrt [count n d] X model D rng fuel attempts
  fail_count.
Arguments sample_features_weights [R] cos sqrt [count n d] X model D rng.

(** * [objectives.py]: the two helpers *)

Section Objectives.

Variable R : realDomainType.

(** A numpy array: its shape and the item stored at every index.  [item] is
    only read at indices inside the shape. *)
Record ndarray (T : Type) : Type := NdArray {
  shape : seq nat;
  item : seq nat -> T
}.

Definition ndim (T : Type) (a : ndarray T) : nat := size (shape a).

(** An objective that evaluates [f] at every point of a batch of shape
    [(..., input_dims)] and returns the values with shape [(...)]. *)
Definition pointwise (f : seq R -> R) (x : ndarray R) : ndarray R :=
  let input_dims := last 0%N (shape x) in
  NdArray (take (ndim x).-1 (shape x))
    (fun idx => f (mkseq (fun k => item x (rcons idx k)) input_dims)).

(** [np.expand_dims(a, axis=-1)]. *)
Definition expand_dims_last (T : Type) (a : ndarray T) : ndarray T :=
  NdArray (rcons (shape a) 1%N) (fun idx => item a (take (size idx).-1 idx)).

(** Unary minus on an array. *)
Definition negative (a : ndarray R) : ndarray R :=
  NdArray (shape a) (fun idx => - item a idx).

Definition objective_get_f_neg (x : ndarray R)
    (objective : ndarray R -> ndarray R) : ndarray R :=
  negative (expand_dims_last (objective x)).

(** The first index of a minimal value of [f] among [0, ..., m]. *)
Fixpoint argmin_upto (f : nat -> R) (m : nat) : nat :=
  if m is m'.+1 then
    let j := argmin_upto f m' in
    if f m'.+1 < f j then m'.+1 else j
  else 0%N.

(** [np.argmin(a, axis=1)]: [AxisError] when [a] has fewer than two axes,
    [ValueError] when axis 1 is empty; the first occurrence wins. *)
Definition argmin_axis1 (a : ndarray R) : result (ndarray nat) :=
  match shape a with
  | s0 :: s1 :: rest =>
      if s1 == 0%N then Raise ValueError
      else
        Return (NdArray (s0 :: rest)
          (fun idx =>
             if idx is i0 :: r then
               argmin_upto (fun j => item a [:: i0, j & r]) s1.-1
             else 0%N))
  | _ => Raise AxisError
  end.

(** [a[:, np.newaxis, np.newaxis]]. *)
Definition newaxis2 (T : Type) (t0 : T) (a : ndarray T) : result (ndarray T) :=
  match shape a with
  | s0 :: rest =>
      Return (NdArray [:: s0, 1%N, 1%N & rest]
        (fun idx =>
           if idx is [:: i0, _, _ & r] then item a (i0 :: r) else t0))
  | [::] => Raise IndexError
  end.

(** The shape two shapes of the same length broadcast to, if any. *)
Fixpoint broadcast_shapes (s1 s2 : seq nat) : option (seq nat) :=
  match s1, s2 with
  | a :: s1', b :: s2' =>
      if broadcast_shapes s1' s2' is Some s then
        if a == b then Some (a :: s)
        else if a == 1%N then Some (b :: s)
        else if b == 1%N then Some (a :: s)
        else None
      else None
  | [::], [::] => Some [::]
  | _, _ => None
  end.

(** Every index of an array of the given shape. *)
Fixpoint all_indices (shp : seq nat) : seq (seq nat) :=
  if shp is s :: shp' then
    flatten [seq [seq i :: r | r <- all_indices shp'] | i <- iota 0 s]
  else [:: [::]].

(** The index read in an array of shape [shp] for the index [idx] of the
    broadcast result: axes of length one are read at [0]. *)
Definition broadcast_index (shp idx : seq nat) : seq nat :=
  mkseq (fun k => if nth 0%N shp k == 1%N then 0%N else nth 0%N idx k)
    (size shp).

(** [np.take_along_axis(arr, indices, axis=-2)]: [arr] is indexed by a range
    along every axis but the last but one, where [indices] is used; the
    ranges and [indices] broadcast against each other. *)
Definition take_along_axis (T : Type) (arr : ndarray T)
    (indices : ndarray nat) : result (ndarray T) :=
  let n := ndim arr in
  if (n < 2)%N then Raise AxisError
  else if n != ndim indices then Raise ValueError
  else
    let axis := (n - 2)%N in
    if broadcast_shapes (set_nth 0%N (shape arr) axis 1%N) (shape indices)
      is Some shp then
      if all (fun idx => (item indices idx < nth 0%N (shape arr) axis)%N)
           (all_indices (shape indices)) then
        Return (NdArray shp
          (fun idx =>
             item arr
               (mkseq (fun k =>
                  if k == axis then
                    item indices (broadcast_index (shape indices) idx)
                  else if nth 0%N (shape arr) k == 1%N then 0%N
                  else nth 0%N idx k) n)))
      else Raise IndexError
    else Raise IndexError.

(** [np.squeeze(a, axis=-2)]. *)
Definition squeeze (T : Type) (a : ndarray T) : result (ndarray T) :=
  let n := ndim a in
  if (n < 2)%N then Raise AxisError
  else if nth 0%N (shape a) (n - 2) != 1%N then Raise ValueError
  else
    Return (NdArray (take (n - 2) (shape a) ++ drop (n - 1) (shape a))
      (fun idx => item a (take (n - 2) idx ++ 0%N :: drop (n - 2) idx))).

Definition objective_get_y (x : ndarray R)
    (objective : ndarray R -> ndarray R) : result (ndarray R) :=
  let evals := objective x in
  Do argmins <-- argmin_axis1 evals;
  Do indices <-- newaxis2 0%N argmins;
  Do taken <-- take_along_axis x indices;
  squeeze taken.

End Objectives.

(** * Vocabulary of the statements *)

Section Vocabulary.

Variable R : realFieldType.

(** The function values [f_sample = q_sqrt @ z + q_mu] drawn for the batch
    index [c], where [z] is the standard normal draw of the call. *)
Definition f_sample (count n : nat) (q_mu : 'M[R]_(n, 1))
    (q_sqrt : tensor R 1 n n) (z : 'M[R]_(count, n)) (c : 'I_count) :
    'M[R]_(n, 1) :=
  q_sqrt ord0 *m (row c z)^T + q_mu.

(** The Gram matrix inverted by the selected branch is invertible at every
    batch index. *)
Definition gram_invertible (count n D : nat) (phi : tensor R count n D) :
    Prop :=
  forall c : 'I_count,
    if (n >= D)%N then (phi c)^T *m phi c \in unitmx
    else phi c *m (phi c)^T \in unitmx.

(** The two closed forms of the least-squares solution. *)
Definition closed_form_theta (count n D : nat) (phi : tensor R count n D)
    (f : tensor R count n 1) : tensor R count D 1 :=
  fun c =>
    if (n >= D)%N then invmx ((phi c)^T *m phi c) *m (phi c)^T *m f c
    else (phi c)^T *m invmx (phi c *m (phi c)^T) *m f c.

(** The lengthscale read from the sub-kernel [i] of a product kernel by one
    pass through the loop of lines 36-40. *)
Definition sub_lengthscale (kernels : seq (Kernel R)) (i : nat) : result R :=
  Do k <-- list_getitem kernels i;
  Do lengthscale_val <-- get_lengthscale k;
  as_element lengthscale_val.

(** The vector of length [d] holding [l i] at the positions [i] and [i + m]
    for [i < m], and [0] elsewhere. *)
Definition mirrored (l : nat -> R) (m d : nat) : seq R :=
  mkseq (fun j => if (j < m)%N then l j
                  else if (j < m + m)%N then l (j - m)%N else 0) d.

(** The array [lengthscales] after the passes [0, ..., k - 1] of that loop,
    when the pass [i] reads the lengthscale [l i] and [m] is [input_dims]. *)
Definition lengthscales_after (l : nat -> R) (m d k : nat) : seq R :=
  mkseq (fun j => if (j < k)%N then l j
                  else if (m <= j)%N && (j < m + k)%N then l (j - m)%N
                  else 0) d.

(** The projection matrix [W] drawn by [tf.random.normal] for the standard
    normal draw [normal_W] and the standard deviations [stddev]. *)
Definition scaled_W (count D d : nat) (stddev : 'rV[R]_d)
    (normal_W : tensor R count D d) : tensor R count D d :=
  fun c => \matrix_(j, k) (normal_W c j k * stddev 0 k + 0).


(** The relative change [|loss_t - loss_{t-1}| / |loss_{t-1}|]. *)
Definition relative_change (current_loss prev_loss : R) : R :=
  `|current_loss - prev_loss| / `|prev_loss|.

Section Search.

Variables (cos sqrt : R -> R).

(** The features computed by [fourier_features] when it returns. *)
Definition features (count n d D : nat)
    (X : tensor R count n d) (W : tensor R count D d) (b : tensor R count D 1) :
    tensor R count n D :=
  fun c =>
    sqrt (2 / D%:R) *: map_mx cos (add_bcast_col (W c *m (X c)^T) (b c))^T.

Variables count n_init d D : nat.
Variables (W : tensor R count D d) (b theta : tensor R count D 1).

(** The value of the loss at the candidates [x]: the negated mean of the
    linear objective. *)
Definition loss_value (x : tensor R count n_init d) : R :=
  - reduce_mean (fun c => features x W b c *m theta c).

(** The function values of the candidates [x]. *)
Definition fvals_of (x : tensor R count n_init d) : 'M[R]_(count, n_init) :=
  \matrix_(c, i) (features x W b c *m theta c) i 0.

Variable opt_state : Type.
Variable rmsprop_update :
  (tensor R count n_init d -> result R) -> opt_state ->
  tensor R count n_init d -> opt_state * tensor R count n_init d.
Variables min_val max_val : R.

(** What one call to [minimize] makes of the optimizer and the candidates. *)
Definition update_step (loss : tensor R count n_init d -> result R)
    (sx : opt_state * tensor R count n_init d) :
    opt_state * tensor R count n_init d :=
  let (s', x') := rmsprop_update loss sx.1 sx.2 in
  (s', constraint min_val max_val x').

(** The optimizer and the candidates after [t] updates. *)
Definition trajectory (loss : tensor R count n_init d -> result R)
    (s0 : opt_state) (x0 : tensor R count n_init d) (t : nat) :
    opt_state * tensor R count n_init d :=
  iter t (update_step loss) (s0, x0).

(** The loss after [t] updates, [loss_0] being the loss of the initial
    candidates. *)
Definition loss_at (s0 : opt_state) (x0 : tensor R count n_init d)
    (t : nat) : R :=
  loss_value
    (trajectory (construct_maximizer_objective cos sqrt W b theta) s0 x0 t).2.

(** The number of updates a loop of [num_steps] iterations makes when it is
    entered after the update [t], for the losses [L 0, L 1, ...] of the
    trajectory. *)
Fixpoint steps_run (L : nat -> R) (num_steps t : nat) : nat :=
  if num_steps is remaining.+1 then
    if converged (L t.+1) (L t) then 1%N
    else (steps_run L remaining t.+1).+1
  else 0%N.

End Search.

End Vocabulary.

Section ArrayVocabulary.

Variable T : Type.

(** The candidate [j] of the query [i] in a batch of shape
    [(q, num_choices, input_dims)]. *)
Definition candidate (x : ndarray T) (input_dims i j : nat) : seq T :=
  mkseq (fun k => item x [:: i; j; k]) input_dims.

(** The shape of an array and its items in row-major order. *)
Definition contents (a : ndarray T) : seq nat * seq T :=
  (shape a, [seq item a idx | idx <- all_indices (shape a)]).

End ArrayVocabulary.

(** * [objectives.py]: the test functions *)

Section TestFunctions.

Variable R : realFieldType.

(** [np.sin] and [np.exp]. *)
Variables (sin exp : R -> R).

(** [x[..., k]]: [IndexError] on a 0-d array and when the last axis has no
    position [k]. *)
Definition last_axis_item (x : ndarray R) (k : nat) : result (ndarray R) :=
  if ndim x == 0%N then Raise IndexError
  else if (k < last 0%N (shape x))%N then
    Return (NdArray (take (ndim x).-1 (shape x))
              (fun idx => item x (rcons idx k)))
  else Raise IndexError.

(** An arithmetic expression applied to every item of an array, and to the
    items of two arrays of the same shape. *)
Definition map_items (f : R -> R) (a : ndarray R) : ndarray R :=
  NdArray (shape a) (fun idx => f (item a idx)).

Definition map2_items (f : R -> R -> R) (a1 a2 : ndarray R) : ndarray R :=
  NdArray (shape a1) (fun idx => f (item a1 idx) (item a2 idx)).

Definition forrester (x : ndarray R) : result (ndarray R) :=
  Do x0 <-- last_axis_item x 0;
  Return (map_items (fun x0 => (6 * x0 - 2) * (6 * x0 - 2) * sin (12 * x0 - 4))
            x0).

(** The literal [2.1] is the rational [21 / 10]. *)
Definition six_hump_camel (x : ndarray R) : result (ndarray R) :=
  Do x1 <-- last_axis_item x 0;
  Do x2 <-- last_axis_item x 1;
  Return (map2_items
            (fun x1 x2 =>
               (4 - 21 / 10 * (x1 ^+ 2) + (1 / 3) * (x1 ^+ 4)) * (x1 ^+ 2) +
               (x1 * x2) + (- 4 + 4 * (x2 ^+ 2)) * (x2 ^+ 2))
            x1 x2).

(** The constants of [hartmann3d]. *)
Definition hartmann_alpha : seq R := [:: 1; 12 / 10; 3; 32 / 10].

Definition hartmann_A : seq (seq R) :=
  [:: [:: 3; 10; 30]; [:: 1 / 10; 10; 35]; [:: 3; 10; 30];
      [:: 1 / 10; 10; 35]].

Definition hartmann_P : seq (seq R) :=
  [seq [seq 1 / 10000 * v | v <- row]
  | row <- [:: [:: 3689; 1170; 2673]; [:: 4699; 4387; 7470];
               [:: 1091; 8732; 5547]; [:: 381; 5743; 8828]]].

(** [hartmann3d]: [np.expand_dims(x, axis=-2)] raises [AxisError] on a 0-d
    array; [x_repeat], of shape [(..., 4, k)], broadcasts against [P], of
    shape [(4, 3)], when [k] is [3] or [1], and [ValueError] is raised
    otherwise. *)
Definition hartmann3d (x : ndarray R) : result (ndarray R) :=
  if ndim x == 0%N then Raise AxisError
  else
    let k := last 0%N (shape x) in
    if (k != 3%N) && (k != 1%N) then Raise ValueError
    else
      let x_repeat (idx : seq nat) (i j : nat) : R :=
        item x (rcons idx (if k == 1%N then 0%N else j)) in
      Return (NdArray (take (ndim x).-1 (shape x))
        (fun idx =>
           - \sum_(0 <= i < 4)
               nth 0 hartmann_alpha i *
               exp (- \sum_(0 <= j < 3)
                        nth 0 (nth [::] hartmann_A i) j *
                        (x_repeat idx i j - nth 0 (nth [::] hartmann_P i) j)
                          ^+ 2))).

End TestFunctions.

Section TableFunctions.

Variable R : realFieldType.

(** The exceptions of the table look-ups: [KeyError], or one of the
    exceptions above. *)
Inductive lookup_exn : Type :=
  | KeyError
  | Other (e : exn).

(** A dictionary keyed by the bytes of a point: the key of a point is the
    sequence of its coordinates. *)
Definition table : Type := seq R -> option R.

(** The body of the loop of [sushi] over the rows that remain. *)
Fixpoint sushi_rows (feat_to_fval_dict : table) (rows : seq (seq R)) :
    lookup_exn + seq R :=
  if rows is row :: rows' then
    if feat_to_fval_dict row is Some fval then
      if sushi_rows feat_to_fval_dict rows' is inr fvals then
        inr (- fval :: fvals)
      else sushi_rows feat_to_fval_dict rows'
    else inl KeyError
  else inr [::].

(** [sushi]: [x.shape[-1]] raises [IndexError] on a 0-d array, and
    [np.reshape(x, [-1, 0])] raises [ValueError].  The rows of [raveled] are
    the points of [x] in row-major order of their leading index, and the
    item of [np.reshape(raveled_fvals, shape)] at a leading index is the item
    of [raveled_fvals] at the rank of this index in that order. *)
Definition sushi (x : ndarray R) (feat_to_fval_dict : table) :
    lookup_exn + ndarray R :=
  if ndim x == 0%N then inl (Other IndexError)
  else
    let input_dims := last 0%N (shape x) in
    let shape := take (ndim x).-1 (shape x) in
    if input_dims == 0%N then inl (Other ValueError)
    else
      let raveled :=
        [seq mkseq (fun k => item x (rcons idx k)) input_dims
        | idx <- all_indices shape] in
      match sushi_rows feat_to_fval_dict raveled with
      | inr raveled_fvals =>
          inr (NdArray shape
                 (fun idx =>
                    nth 0 raveled_fvals (index idx (all_indices shape))))
      | inl e => inl e
      end.

End TableFunctions.

(** ** Vocabulary of the statements on arrays *)

(** The point at a leading index of a batch, and the shape of the leading
    indices. *)
Definition point_at (T : Type) (x : ndarray T) (idx : seq nat) : seq T :=
  mkseq (fun k => item x (rcons idx k)) (last 0%N (shape x)).

Definition leading_shape (T : Type) (x : ndarray T) : seq nat :=
  take (ndim x).-1 (shape x).

(** * Inputs of the examples *)

(** The tensor of zeros. *)
Definition origin (count n d : nat) : tensor rat count n d := fun _ => 0.

Arguments origin : clear implicits.

(** Two points and one feature, one point and two features. *)
Definition phi_tall : tensor rat 1 2 1 := fun _ => const_mx 1.
Definition phi_wide : tensor rat 1 1 2 := fun _ => const_mx 1.

(** A model with one lengthscale [1], [q_mu = 0] and [q_sqrt] the identity. *)
Definition unit_model (n : nat) : gp_model rat n :=
  GPModel (Stationary (Scalar 1)) 0 (fun _ => 1%:M).

(** Product kernels: two sub-kernels with one lengthscale each, and two
    sub-kernels with two lengthscales each. *)
Definition scalar_kernels : seq (Kernel rat) :=
  [:: Stationary (Scalar 1); Stationary (Scalar 2)].
Definition vector_kernels : seq (Kernel rat) :=
  [:: Stationary (Vector [:: 1; 2]); Stationary (Vector [:: 3; 4])].

(** Draws that are all zero. *)
Definition still_draws (count n d D : nat) (k : nat) : draws rat count n d D :=
  Draws (origin count D d) (origin count D 1) 0.

(** Draws whose offset [b] is [0] in the first pass and [1] afterwards. *)
Definition late_draws (k : nat) : draws rat 1 1 1 1 :=
  Draws (origin 1 1 1) (fun _ => const_mx (if k is 0%N then 0 else 1)) 0.

(** An optimizer without state that adds [10] to every coordinate. *)
Definition push_update (loss : tensor rat 1 2 1 -> result rat) (s : unit)
    (x : tensor rat 1 2 1) : unit * tensor rat 1 2 1 :=
  (s, fun c => x c + const_mx 10).

(** Two candidates at [1/2]. *)
Definition half_start : tensor rat 1 2 1 := fun _ => const_mx (1 / 2).

(** The objective reading the first coordinate of a point. *)
Definition first_coordinate (p : seq int) : int := nth 0 p 0.

(** Two queries with two candidates each, in a batch with two leading
    axes, of shape [(1, 2, 2, 2)]:
    [[[[[5, 50], [3, 30]], [[1, 10], [7, 70]]]]]. *)
Definition two_queries : ndarray int :=
  NdArray [:: 1; 2; 2; 2]%N
    (fun idx =>
       nth 0 [:: 5; 50; 3; 30; 1; 10; 7; 70]
         (nth 0%N idx 1 * 4 + nth 0%N idx 2 * 2 + nth 0%N idx 3)%N).

(** One query with two candidates and no leading axis, of shape [(2, 1)]:
    [[[5], [3]]]. *)
Definition one_query : ndarray int :=
  NdArray [:: 2; 1]%N (fun idx => nth 0 [:: 5; 3] (nth 0%N idx 0)).

(** Two candidates outside the box [[0, 1]], no candidate, and an optimizer
    for no candidate that changes nothing. *)
Definition far_start : tensor rat 1 2 1 := fun _ => const_mx 5.

Definition idle_update (loss : tensor rat 1 0 1 -> result rat) (s : unit)
    (x : tensor rat 1 0 1) : unit * tensor rat 1 0 1 :=
  (s, x).

(** One query with the candidates [[5]] and [[3]], of shape [(1, 2, 1)], and
    a batch of one query without candidate. *)
Definition one_pair : ndarray int :=
  NdArray [:: 1; 2; 1]%N (fun idx => nth 0 [:: 5; 3] (nth 0%N idx 1)).

Definition no_choice : ndarray int := NdArray [:: 1; 0; 1]%N (fun _ => 0).

(** The points [[1/2]], [[1, 2]] and [[0, 0, 0]]. *)
Definition half_point : ndarray rat := NdArray [:: 1%N] (fun _ => 1 / 2).

Definition camel_point : ndarray rat :=
  NdArray [:: 2%N] (fun idx => nth 0 [:: 1; 2] (nth 0%N idx 0)).

Definition corner : ndarray rat := NdArray [:: 3%N] (fun _ => 0).

(** A dictionary with the single key [[1]], and two batches of one point:
    the key and another point. *)
Definition menu : table rat :=
  fun row => if row == [:: 1] then Some 5 else None.

Definition listed : ndarray rat := NdArray [:: 1; 1]%N (fun _ => 1).

Definition unlisted : ndarray rat := NdArray [:: 1; 1]%N (fun _ => 2).

(** * Properties of [fourier_features.py] *)

Section FeatureMapper.

Variable R : realFieldType.
Variables (cos sqrt : R -> R).

(** The transposed, shifted product [W @ X^T + b], entry by entry. *)
Lemma add_bcast_colE (D n d : nat) (W : 'M[R]_(D, d)) (X : 'M[R]_(n, d))
    (b : 'cV[R]_D) (j : 'I_D) (i : 'I_n) :
  add_bcast_col (W *m X^T) b j i = \sum_k W j k * X i k + b j 0.
Proof.
rewrite /add_bcast_col !mxE; congr (_ + _).
by apply: eq_bigr => k _; rewrite mxE.
Qed.

Lemma fourier_features_Return (count n d D : nat)
    (X : tensor R count n d) (W : tensor R count D d) (b : tensor R count D 1) :
  (0 < D)%N ->
  fourier_features cos sqrt X W b = Return (features cos sqrt X W b).
Proof. by rewrite /fourier_features; case: D W b. Qed.

Lemma fourier_features_Raise (count n d D : nat)
    (X : tensor R count n d) (W : tensor R count D d) (b : tensor R count D 1) :
  D = 0%N -> fourier_features cos sqrt X W b = Raise ZeroDivisionError.
Proof. by rewrite /fourier_features => /eqP ->. Qed.

(** C3, as amended: when there is at least one feature ([D >= 1]),
    [fourier_features] returns a tensor [phi] of shape [(count, n, D)] with
    [phi[c,i,j] = sqrt(2/D) * cos(W[c,j,:] . X[c,i,:] + b[c,j,0])], and every
    invocation on the same inputs yields this same output. *)
Theorem fourier_features_spec (count n d D : nat)
    (X : tensor R count n d) (W : tensor R count D d) (b : tensor R count D 1) :
  (0 < D)%N ->
  exists phi : tensor R count n D,
    [/\ fourier_features cos sqrt X W b = Return phi,
        forall c i j,
          phi c i j =
          sqrt (2 / D%:R) * cos (\sum_k W c j k * X c i k + b c j 0)
      & forall r1 r2,
          fourier_features cos sqrt X W b = r1 -> fourier_features cos sqrt X W b = r2 ->
          r1 = r2].
Proof.
move=> D_gt0; eexists; split; first exact: fourier_features_Return.
- by move=> c i j; rewrite /features !mxE -add_bcast_colE !mxE.
- by move=> r1 r2 <- <-.
Qed.

End FeatureMapper.

Section PosteriorWeights.

Variable R : realFieldType.
Variables count n D : nat.
Variable phi : tensor R count n D.
Variable q_mu : 'M[R]_(n, 1).
Variable q_sqrt : tensor R 1 n n.

(** [z] is the standard normal vector drawn in the call. *)
Variable z : 'M[R]_(count, n).

Lemma linalg_inv_Return (m : nat) (A : tensor R count m m) :
  (forall c, A c \in unitmx) ->
  linalg_inv A = Return (fun c => invmx (A c)).
Proof. by rewrite /linalg_inv => /forallP ->. Qed.

Lemma linalg_inv_Raise (m : nat) (A : tensor R count m m) (c : 'I_count) :
  A c \notin unitmx -> linalg_inv A = Raise InvalidArgumentError.
Proof.
rewrite /linalg_inv => singular; case: ifP => // /forallP /(_ c) unit_c.
by rewrite unit_c in singular.
Qed.

Lemma sample_theta_variational_Return :
  gram_invertible phi ->
  sample_theta_variational phi q_mu q_sqrt z =
  Return (closed_form_theta phi (f_sample q_mu q_sqrt z)).
Proof.
rewrite /gram_invertible /sample_theta_variational /closed_form_theta.
by case: (leqP D n) => _ gram; rewrite linalg_inv_Return.
Qed.

(** C1: when the selected Gram matrix is invertible,
    [sample_theta_variational] returns
    [inv(phi^T @ phi) @ phi^T @ f_sample] if [n >= D] and
    [phi^T @ inv(phi @ phi^T) @ f_sample] if [n < D], where
    [f_sample = q_sqrt @ z + q_mu]. *)
Theorem sample_theta_variational_spec :
  gram_invertible phi ->
  exists theta : tensor R count D 1,
    sample_theta_variational phi q_mu q_sqrt z = Return theta /\
    forall c,
      let f := q_sqrt ord0 *m (row c z)^T + q_mu in
      theta c =
      if (n >= D)%N then invmx ((phi c)^T *m phi c) *m (phi c)^T *m f
      else (phi c)^T *m invmx (phi c *m (phi c)^T) *m f.
Proof.
by move=> /sample_theta_variational_Return ->; eexists; split.
Qed.

(** A square matrix whose Gram matrix is invertible is invertible. *)
Lemma unitmx_of_gram (m : nat) (A : 'M[R]_m) :
  A^T *m A \in unitmx -> A \in unitmx.
Proof. by rewrite unitmx_mul => /andP[]. Qed.

(** The normal equations on a square invertible matrix solve the system. *)
Lemma normal_equations_square (m : nat) (A : 'M[R]_m) (f : 'M[R]_(m, 1)) :
  A^T *m A \in unitmx -> A *m (invmx (A^T *m A) *m A^T *m f) = f.
Proof.
move=> gram; have unitA := unitmx_of_gram gram.
have -> : invmx (A^T *m A) *m A^T = invmx A.
  by rewrite -[LHS](mulmxK unitA) -[_ *m A^T *m A]mulmxA mulVmx // mul1mx.
by rewrite mulmxA mulmxV // mul1mx.
Qed.

(** C2: for [D >= n], when the Gram matrix of the selected branch is
    invertible, the returned [theta] reconstructs the drawn function values:
    [phi @ theta = f_sample]. *)
Theorem posterior_consistency :
  (n <= D)%N -> gram_invertible phi ->
  exists theta : tensor R count D 1,
    sample_theta_variational phi q_mu q_sqrt z = Return theta /\
    forall c, phi c *m theta c = q_sqrt ord0 *m (row c z)^T + q_mu.
Proof.
move=> n_le_D gram; rewrite (sample_theta_variational_Return gram).
eexists; split=> // c; rewrite /closed_form_theta -/(f_sample q_mu q_sqrt z c).
move: (gram c); case: (leqP D n) => [D_le_n | n_lt_D] unit_gram.
- have eq_nD : n = D by apply/eqP; rewrite eqn_leq n_le_D D_le_n.
  move: (phi c) (f_sample q_mu q_sqrt z c) unit_gram; rewrite -eq_nD => A f.
  exact: normal_equations_square.
- by rewrite !mulmxA mulmxV // mul1mx.
Qed.

End PosteriorWeights.

Section Lengthscales.

Variable R : realFieldType.
Variable l : nat -> R.
Variables m d : nat.

Local Notation partial := (lengthscales_after l m d).

Lemma lengthscales_after0 : partial 0 = nseq d 0.
Proof.
apply: (@eq_from_nth _ 0); first by rewrite size_mkseq size_nseq.
move=> j; rewrite size_mkseq => j_lt_d; rewrite nth_mkseq // nth_nseq j_lt_d.
by rewrite ltn0 addn0; case: (leqP m j) => // /leq_gtF ->.
Qed.

Lemma lengthscales_after_all : partial m = mirrored l m d.
Proof.
apply: (@eq_from_nth _ 0); first by rewrite !size_mkseq.
move=> j; rewrite size_mkseq => j_lt_d; rewrite !nth_mkseq //.
by case: (ltnP j m) => // ->.
Qed.

(** One pass of the loop writes the positions [k] and [k + m]. *)
Lemma lengthscales_after_step (k : nat) :
  (k < m)%N -> (m + m <= d)%N ->
  set_nth 0 (set_nth 0 (partial k) k (l k)) (k + m) (l k) = partial k.+1.
Proof.
move=> k_lt_m mm_le_d.
have km_lt_d : (k + m < d)%N.
  by apply: leq_trans mm_le_d; rewrite ltn_add2r.
have k_lt_d : (k < d)%N by apply: leq_ltn_trans km_lt_d; exact: leq_addr.
apply: (@eq_from_nth _ 0).
  rewrite !size_set_nth !size_mkseq.
  by rewrite (maxn_idPr k_lt_d) (maxn_idPr km_lt_d).
move=> j; rewrite !size_set_nth !size_mkseq.
rewrite (maxn_idPr k_lt_d) (maxn_idPr km_lt_d) => j_lt_d.
rewrite !nth_set_nth /= !nth_mkseq // ltnS addnS ltnS.
have m_gt0 : (0 < m)%N by apply: leq_ltn_trans k_lt_m.
have [-> | j_ne_km] := eqVneq j (k + m)%N.
  rewrite -[X in (_ <= X)%N]addn0 leq_add2l leqNgt m_gt0 /=.
  by rewrite leq_addl addnC leqnn addKn.
rewrite nth_set_nth /= nth_mkseq //.
have [-> | j_ne_k] := eqVneq j k; first by rewrite leqnn.
rewrite [(j <= k)%N]leq_eqVlt (negPf j_ne_k) /=.
by rewrite [(j <= m + k)%N]leq_eqVlt addnC (negPf j_ne_km).
Qed.

Lemma mirror_loop_run (kernels : seq (Kernel R)) (r k : nat) :
  (k + r = m)%N -> (m + m <= d)%N ->
  (forall i, (i < m)%N -> sub_lengthscale kernels i = Return (l i)) ->
  mirror_loop kernels m (iota k r) (partial k) = Return (partial m).
Proof.
elim: r k => [|r IH] k /=; first by rewrite addn0 => ->.
rewrite addnS => kr_eq mm_le_d sub_ok.
have k_lt_m : (k < m)%N by rewrite -kr_eq ltnS leq_addr.
move: (sub_ok k k_lt_m); rewrite /sub_lengthscale.
case: (list_getitem kernels k) => //= ker.
case: (get_lengthscale ker) => //= lv.
case: (as_element lv) => //= v [->].
by rewrite lengthscales_after_step // IH // addSn.
Qed.

End Lengthscales.

(** C4, as amended: for a product kernel and input dimension [d], when each
    of the first [d // 2] sub-kernels carries a single lengthscale [l i],
    [sample_fourier_features] builds the lengthscale vector holding [l i] at
    the positions [i] and [i + d // 2]; in particular, for [d = 4] and two
    sub-kernels with the lengthscales [1.0] and [2.0], the built vector is
    [[1.0, 2.0, 1.0, 2.0]]. *)
Theorem build_lengthscales_product (R : realFieldType)
    (kernels : seq (Kernel R)) (d : nat) (l : nat -> R) :
  (forall i, (i < d %/ 2)%N -> sub_lengthscale kernels i = Return (l i)) ->
  build_lengthscales (Product kernels) d =
    Return (Vector (mirrored l (d %/ 2) d)) /\
  build_lengthscales
    (Product [:: Stationary (Scalar (1 : R)); Stationary (Scalar 2)]) 4 =
    Return (Vector [:: 1; 2; 1; 2]).
Proof.
move=> sub_ok; split; last by [].
rewrite /build_lengthscales -(lengthscales_after0 l (d %/ 2)).
rewrite (@mirror_loop_run _ l) ?lengthscales_after_all //.
by rewrite addnn -muln2 leq_trunc_div.
Qed.

Section SamplingFacts.

Variable R : realFieldType.
Variables (cos sqrt : R -> R).
Variables count n d D : nat.

Lemma features_entry (X : tensor R count n d) (W : tensor R count D d)
    (b : tensor R count D 1) c i j :
  features cos sqrt X W b c i j =
  sqrt (2 / D%:R) * cos (\sum_k W c j k * X c i k + b c j 0).
Proof. by rewrite /features !mxE -add_bcast_colE !mxE. Qed.

(** A matrix of size one is invertible when its entry is not zero. *)
Lemma unitmx11 (A : 'M[R]_1) : (A \in unitmx) = (A 0 0 != 0).
Proof. by rewrite unitmxE det_mx11 unitfE. Qed.

(** Two equal rows make the Gram matrix [A @ A^T] singular. *)
Lemma gram_equal_rows (A : 'M[R]_(n, D)) (i1 i2 : 'I_n) :
  i1 != i2 -> (forall j, A i1 j = A i2 j) -> A *m A^T \notin unitmx.
Proof.
move=> i1_neq_i2 eq_rows; rewrite unitmxE unitfE negbK; apply/eqP.
apply: (determinant_alternate i1_neq_i2) => j; rewrite !mxE.
by apply: eq_bigr => k _; rewrite eq_rows.
Qed.

Variable X : tensor R count n d.
Variable lengthscale : R.
Variable q_mu : 'M[R]_(n, 1).
Variable q_sqrt : tensor R 1 n n.
Variable r : draws R count n d D.

Local Notation model := (GPModel (Stationary (Scalar lengthscale)) q_mu q_sqrt).

Local Notation W := (scaled_W (const_mx (1 / lengthscale)) (normal_W r)).
Local Notation b := (uniform_b r).
Local Notation phi := (features cos sqrt X W b).

Lemma sample_fourier_features_Return :
  (0 < D)%N ->
  sample_fourier_features cos sqrt X (Stationary (Scalar lengthscale)) D
    (normal_W r) (uniform_b r) = Return (phi, W, b).
Proof.
by move=> D_gt0; rewrite /sample_fourier_features /= fourier_features_Return.
Qed.

(** A pass whose Gram matrix is invertible returns the closed form. *)
Lemma try_sample_Return :
  (0 < D)%N -> gram_invertible phi ->
  try_sample cos sqrt X model D r =
  Return (phi, W, b,
          closed_form_theta phi
            (f_sample q_mu q_sqrt (standard_normal_samples r))).
Proof.
move=> D_gt0 gram; rewrite /try_sample sample_fourier_features_Return //=.
by rewrite sample_theta_variational_Return.
Qed.

(** A pass fails with the singular-matrix error when the selected Gram matrix
    of some batch index is singular. *)
Lemma try_sample_Raise (c : 'I_count) :
  (0 < D)%N ->
  (if (n >= D)%N then (phi c)^T *m phi c \notin unitmx
   else phi c *m (phi c)^T \notin unitmx) ->
  try_sample cos sqrt X model D r = Raise InvalidArgumentError.
Proof.
move=> D_gt0; rewrite /try_sample sample_fourier_features_Return //=.
rewrite /sample_theta_variational.
by case: (leqP D n) => _ singular; rewrite (linalg_inv_Raise singular).
Qed.

(** With more features than points, two equal points make every pass fail. *)
Lemma try_sample_equal_points (c : 'I_count) (i1 i2 : 'I_n) :
  (0 < D)%N -> (n < D)%N -> i1 != i2 ->
  (forall k, X c i1 k = X c i2 k) ->
  try_sample cos sqrt X model D r = Raise InvalidArgumentError.
Proof.
move=> D_gt0 n_lt_D i1_neq_i2 eq_points; apply: (try_sample_Raise (c := c)) => //.
rewrite leqNgt n_lt_D /=; apply: (gram_equal_rows i1_neq_i2) => j.
rewrite !features_entry; congr (_ * cos (_ + _)).
by apply: eq_bigr => k _; rewrite eq_points.
Qed.

End SamplingFacts.

Section Retry.

Variable R : realFieldType.
Variables (cos sqrt : R -> R).
Variables count n d D : nat.
Variable X : tensor R count n d.
Variable model : gp_model R n.
Variable rng : nat -> draws R count n d D.

Local Notation attempt k := (try_sample cos sqrt X model D (rng k)).
Local Notation loop := (retry_loop cos sqrt X model D rng).

(** When [r] failures are left before the limit and the [r] passes from the
    pass [a] on all fail, the loop raises after exactly [r] more passes. *)
Lemma retry_loop_exhausted (r fuel a f : nat) :
  (f + r = 100)%N -> (0 < r)%N -> (r <= fuel)%N ->
  (forall i, (i < r)%N -> attempt (a + i)%N = Raise InvalidArgumentError) ->
  loop fuel a f = Some ((a + r)%N, Raise ValueError).
Proof.
elim: r fuel a f => // r IH [|fuel] a f //= fr_eq _ r_le_fuel fails.
have := fails 0%N (ltn0Sn r); rewrite addn0 => ->.
have -> : (99 < f.+1)%N = (r == 0)%N.
  by rewrite -fr_eq addnS ltnS -[X in (_ <= X)%N]addn0 leq_add2l leqn0.
case: r IH fr_eq r_le_fuel fails => [|r] IH fr_eq r_le_fuel fails /=.
  by rewrite addn1.
rewrite (IH fuel a.+1 f.+1) //.
- by rewrite addSn -addnS.
- by move=> i i_lt; rewrite addSn -addnS fails.
- by rewrite addSn !addnS.
Qed.

(** When the pass [a + j] succeeds after [j] failed passes that stay below
    the limit, the loop returns what that pass computed. *)
Lemma retry_loop_success (j fuel a f : nat) (res : sampled R count n d D) :
  (f + j < 100)%N -> (j < fuel)%N ->
  (forall i, (i < j)%N -> attempt (a + i)%N = Raise InvalidArgumentError) ->
  attempt (a + j)%N = Return res ->
  loop fuel a f = Some ((a + j).+1, Return res).
Proof.
elim: j fuel a f => [|j IH] [|fuel] a f //=.
  by rewrite !addn0 => f_lt _ _ ->; rewrite leqNgt f_lt.
rewrite addnS => f_lt j_lt fails ok.
have := fails 0%N (ltn0Sn j); rewrite addn0 => ->.
have -> : (99 < f.+1)%N = false.
  apply/negbTE; rewrite -leqNgt -ltnS; apply: leq_ltn_trans f_lt.
  by rewrite ltnS leq_addr.
rewrite (IH fuel a.+1 f.+1) //.
- by move=> i i_lt; rewrite addSn -addnS fails.
- by rewrite addSn -addnS.
- by rewrite addSn addnS.
Qed.

(** With enough fuel the loop ends, and [InvalidArgumentError] never leaves
    it. *)
Lemma retry_loop_outcome (fuel a f : nat) :
  (100 <= fuel + f)%N -> (f < 100)%N ->
  exists a' out, loop fuel a f = Some (a', out) /\
                 out <> Raise InvalidArgumentError.
Proof.
elim: fuel a f => [|fuel IH] a f /=.
  by rewrite add0n leqNgt => /negP.
rewrite addSn => fuel_ge f_lt.
case: (attempt a) => [res | []]; rewrite ?[(99 < f)%N]leqNgt ?f_lt /=;
  try by do 2!eexists; split.
case: (leqP 100 f.+1) => [_ | f1_lt]; first by do 2!eexists; split.
by apply: IH; rewrite ?addnS.
Qed.

(** The loop of [sample_features_weights] always ends: its fuel never runs
    out. *)
Lemma sample_features_weights_total :
  exists attempts out,
    sample_features_weights cos sqrt X model D rng = Some (attempts, out).
Proof.
have [a [out [eq_loop _]]] := @retry_loop_outcome 100 0 0 isT isT.
by exists a, out.
Qed.

(** C5: if each of the first hundred passes fails with the singular-matrix
    error, [sample_features_weights] raises the fatal error after exactly
    100 passes; if the pass number [k] (counted from 0) is the first one to
    succeed, the loop stops after [k + 1] passes and returns what that pass
    computed from its own fresh draws [rng k]; and the singular-matrix error
    never reaches the caller. *)
Theorem sample_features_weights_retry :
  [/\ (forall k, (k < 100)%N -> attempt k = Raise InvalidArgumentError) ->
      sample_features_weights cos sqrt X model D rng =
      Some (100%N, Raise ValueError),
      forall k res,
        (k < 100)%N ->
        (forall j, (j < k)%N -> attempt j = Raise InvalidArgumentError) ->
        attempt k = Return res ->
        sample_features_weights cos sqrt X model D rng =
        Some (k.+1, Return res)
    & forall attempts out,
        sample_features_weights cos sqrt X model D rng =
        Some (attempts, out) ->
        out <> Raise InvalidArgumentError].
Proof.
split=> [fails | k res k_lt fails ok | attempts out].
- exact: (@retry_loop_exhausted 100 100 0 0).
- exact: (@retry_loop_success k 100 0 0).
- have [a [out' [eq_loop out_ok]]] := @retry_loop_outcome 100 0 0 isT isT.
  by rewrite /sample_features_weights eq_loop => -[_ <-].
Qed.

End Retry.

Section StoppingRule.

Variable R : realFieldType.

(** The test of the loop is the comparison of the relative change with the
    threshold, guarded by a non-zero previous loss. *)
Lemma convergedE (c p : R) :
  converged c p = (p != 0) && (relative_change c p < tolerance R).
Proof.
by rewrite /converged /relative_change; case: eqP => //= _; rewrite normf_div.
Qed.

Variable L : nat -> R.

Lemma steps_run_le (n t : nat) : (steps_run L n t <= n)%N.
Proof. by elim: n t => [|n IH] t //=; case: ifP => // _; rewrite ltnS. Qed.

Lemma steps_run_before (n t i : nat) :
  (i.+1 < steps_run L n t)%N -> ~~ converged (L (t + i).+1) (L (t + i)%N).
Proof.
elim: n t i => [|n IH] t i //=; case: ifP => // not_conv.
case: i => [_ | i]; first by rewrite addn0 not_conv.
by rewrite ltnS addnS -addSn; apply: IH.
Qed.

Lemma steps_run_early (n t : nat) :
  (steps_run L n t < n)%N ->
  let k := steps_run L n t in
  (0 < k)%N /\ converged (L (t + k)%N) (L (t + k).-1).
Proof.
elim: n t => [|n IH] t //=; case: ifP => [conv _ | _].
  by rewrite addn1.
by rewrite ltnS => /IH [_]; rewrite addnS addSn.
Qed.

Lemma clip_by_value_in (lo hi x : R) :
  lo <= hi -> lo <= clip_by_value x lo hi <= hi.
Proof.
move=> lo_le_hi; rewrite /clip_by_value le_max lexx orbT /=.
by rewrite ge_max lo_le_hi andbT ge_min lexx orbT.
Qed.

(** [argmax_upto] returns the first index of a maximal value. *)
Lemma argmax_uptoP (f : nat -> R) (m : nat) :
  let j := argmax_upto f m in
  [/\ (j <= m)%N, forall i, (i <= m)%N -> f i <= f j
    & forall i, (i < j)%N -> f i < f j].
Proof.
elim: m => [|m [j_le max_j first_j]] /=.
  by split=> // i; rewrite leqn0 => /eqP ->.
case: ltrP => [lt_new | le_new]; split=> //.
- move=> i; rewrite leq_eqVlt ltnS => /orP[/eqP -> // | /max_j le_i].
  exact: ltW (le_lt_trans le_i lt_new).
- by move=> i; rewrite ltnS => /max_j le_i; apply: le_lt_trans lt_new.
- exact: leqW.
- by move=> i; rewrite leq_eqVlt ltnS => /orP[/eqP -> | /max_j].
Qed.

Lemma math_argmaxP (count m : nat) (fvals : 'M[R]_(count, m))
    (idx : 'I_count -> 'I_m) :
  math_argmax fvals = Return idx ->
  forall c,
    (forall i, fvals c i <= fvals c (idx c)) /\
    (forall i : 'I_m, (i < idx c)%N -> fvals c i < fvals c (idx c)).
Proof.
case: m fvals idx => [|m] fvals idx //= [<-] c.
have [j_le max_j first_j] := argmax_uptoP (fun i => fvals c (inord i)) m.
split=> [i | i]; rewrite ?inordK ?ltnS //.
  by rewrite -[i in fvals c i]inord_val; apply: max_j; rewrite -ltnS.
by rewrite -[i in fvals c i]inord_val; apply: first_j.
Qed.

Lemma math_argmax_Return (count m : nat) (fvals : 'M[R]_(count, m)) :
  (0 < m)%N -> exists idx, math_argmax fvals = Return idx.
Proof. by case: m fvals => // m fvals _; eexists. Qed.

End StoppingRule.

Section MaximizerSearch.

Variable R : realFieldType.
Variables (cos sqrt : R -> R).
Variable opt_state : Type.
Variables count n_init d D : nat.
Variable rmsprop_update :
  (tensor R count n_init d -> result R) -> opt_state ->
  tensor R count n_init d -> opt_state * tensor R count n_init d.
Variables min_val max_val : R.

Section Loop.

Variables (W : tensor R count D d) (b theta : tensor R count D 1).

Local Notation loss := (construct_maximizer_objective cos sqrt W b theta).
Local Notation loop := (optimization_loop rmsprop_update min_val max_val loss).
Local Notation traj := (trajectory rmsprop_update min_val max_val loss).

Lemma loss_Return (x : tensor R count n_init d) :
  (0 < D)%N -> loss x = Return (loss_value cos sqrt W b theta x).
Proof.
by move=> D_gt0; rewrite /construct_maximizer_objective fourier_features_Return.
Qed.

Lemma loss_Raise (x : tensor R count n_init d) :
  D = 0%N -> loss x = Raise ZeroDivisionError.
Proof.
by move=> D0; rewrite /construct_maximizer_objective fourier_features_Raise.
Qed.

Lemma minimize_Return (s : opt_state) (x : tensor R count n_init d) :
  (0 < D)%N ->
  minimize rmsprop_update min_val max_val loss s x =
  Return (update_step rmsprop_update min_val max_val loss (s, x)).
Proof.
move=> D_gt0; rewrite /minimize loss_Return //= /update_step /=.
by case: (rmsprop_update _ _ _).
Qed.

Variables (s0 : opt_state) (x0 : tensor R count n_init d).

Local Notation L :=
  (loss_at cos sqrt W b theta rmsprop_update min_val max_val s0 x0).

(** The loop entered after the update [t] makes [steps_run] updates along
    the trajectory. *)
Lemma optimization_loop_run (num_steps t u : nat) (z : bool) :
  (0 < D)%N ->
  let k := steps_run L num_steps t in
  exists st',
    loop num_steps (LoopState (traj s0 x0 t).1 (traj s0 x0 t).2 (L t) u z)
      = Return st' /\
    [/\ optimizer st' = (traj s0 x0 (t + k)).1,
        x_star st' = (traj s0 x0 (t + k)).2,
        updates st' = (u + k)%N
      & zero_divide st' = z || has (fun i => L i == 0) (iota t k)].
Proof.
move=> D_gt0; elim: num_steps t u z => [|num_steps IH] t u z /=.
  by eexists; split; first by []; rewrite !addn0 orbF.
rewrite minimize_Return //= loss_Return //=.
have -> : update_step rmsprop_update min_val max_val loss
            ((traj s0 x0 t).1, (traj s0 x0 t).2) = traj s0 x0 t.+1.
  by rewrite /trajectory /=; case: (iter t _ _).
case: ifP => _.
  by eexists; split; first by []; rewrite /= !addn1 orbF.
have [st' [-> [opt_eq x_eq upd_eq zero_eq]]] := IH t.+1 u.+1 (z || (L t == 0)).
exists st'; split=> //; rewrite opt_eq x_eq upd_eq zero_eq.
by rewrite !addSnnS /= orbA.
Qed.

(** The loop as [sample_maximizers] enters it. *)
Lemma optimization_loop_from_start (num_steps : nat) :
  (0 < D)%N ->
  let k := steps_run L num_steps 0 in
  exists st',
    loop num_steps (LoopState s0 x0 (L 0%N) 0 false) = Return st' /\
    [/\ x_star st' = (traj s0 x0 k).2, updates st' = k
      & zero_divide st' = has (fun i => L i == 0) (iota 0 k)].
Proof.
move=> D_gt0; have [st' [eq_loop [_ x_eq upd_eq zero_eq]]] :=
  optimization_loop_run num_steps 0 0 false D_gt0.
by exists st'; split.
Qed.



(** C7: the optimization loop makes at most [num_steps] updates (3000 by
    default); no update before the last one was followed by a relative loss
    change below [1e-7]; and when the loop ends before [num_steps] updates,
    the relative loss change after its last update is below [1e-7]. *)
Theorem optimization_loop_steps (num_steps : nat) :
  (0 < D)%N ->
  exists st',
    loop num_steps (LoopState s0 x0 (L 0%N) 0 false) = Return st' /\
    let k := updates st' in
    [/\ (k <= num_steps)%N,
        num_steps = default_num_steps -> (k <= 3000)%N,
        x_star st' = (traj s0 x0 k).2,
        forall t, (t.+1 < k)%N ->
          ~ (L t != 0 /\ relative_change (L t.+1) (L t) < tolerance R)
      & (k < num_steps)%N ->
        [/\ (0 < k)%N, L k.-1 != 0
          & relative_change (L k) (L k.-1) < tolerance R]].
Proof.
move=> D_gt0.
have [st' [-> [x_eq upd_eq _]]] := optimization_loop_from_start num_steps D_gt0.
exists st'; split=> //=; rewrite upd_eq; split=> //.
- exact: steps_run_le.
- by move=> ->; apply: steps_run_le.
- move=> t /steps_run_before; rewrite add0n convergedE => not_conv [nz small].
  by rewrite nz small in not_conv.
- by move=> /steps_run_early /=; rewrite add0n convergedE => -[k_gt0 /andP[]].
Qed.

(** C10: when every loss met before an update of the loop is non-zero, no
    evaluation of the stopping test divides by zero, and every test is the
    comparison of the relative change with [1e-7]. *)
Theorem stopping_test_defined (num_steps : nat) :
  (0 < D)%N ->
  exists st',
    loop num_steps (LoopState s0 x0 (L 0%N) 0 false) = Return st' /\
    ((forall t, (t < updates st')%N -> L t != 0) ->
     zero_divide st' = false /\
     forall t, (t < updates st')%N ->
       converged (L t.+1) (L t) =
       (relative_change (L t.+1) (L t) < tolerance R)).
Proof.
move=> D_gt0.
have [st' [-> [_ upd_eq zero_eq]]] := optimization_loop_from_start num_steps D_gt0.
exists st'; split=> // nonzero; split; last first.
  by move=> t /nonzero nz; rewrite convergedE nz.
rewrite zero_eq; apply/negbTE/hasPn => t; rewrite mem_iota add0n /= -upd_eq.
exact: nonzero.
Qed.

End Loop.

Section Selection.

Variables (W : tensor R count D d) (b theta : tensor R count D 1).
Variable x : tensor R count n_init d.

Local Notation fvals := (fvals_of cos sqrt W b theta x).

(** The selection returns, in every row, the candidate at the first maximal
    function value. *)
Lemma select_maximizersP (maximizers : 'M[R]_(count, d)) :
  select_maximizers cos sqrt W b theta x = Return maximizers ->
  forall c, exists j : 'I_n_init,
    [/\ forall k, maximizers c k = x c j k,
        forall i, fvals c i <= fvals c j
      & forall i : 'I_n_init, (i < j)%N -> fvals c i < fvals c j].
Proof.
rewrite /select_maximizers.
case: (posnP D) => [D0 | D_gt0]; first by rewrite fourier_features_Raise.
rewrite fourier_features_Return //= -/fvals.
case eq_idx: (math_argmax fvals) => [idx | e] //= -[<-] c.
have [max_j first_j] := math_argmaxP eq_idx c.
by exists (idx c); split=> // k; rewrite mxE.
Qed.

Lemma select_maximizers_Return :
  (0 < D)%N -> (0 < n_init)%N ->
  exists maximizers, select_maximizers cos sqrt W b theta x = Return maximizers.
Proof.
move=> D_gt0 n_gt0; rewrite /select_maximizers fourier_features_Return //=.
have [idx ->] := math_argmax_Return (fvals_of cos sqrt W b theta x) n_gt0.
by eexists.
Qed.

End Selection.

Variable n : nat.
Variable rmsprop_init : opt_state.
Variables (X : 'M[R]_(n, d)) (model : gp_model R n) (num_steps : nat).
Variable rng : nat -> draws R count n d D.
Variable uniform_x : tensor R count n_init d.

Local Notation call :=
  (sample_maximizers cos sqrt rmsprop_init rmsprop_update X model
     min_val max_val num_steps rng uniform_x).

(** The stages a returning call went through. *)
Lemma sample_maximizers_Return (maximizers : 'M[R]_(count, d)) :
  call = Some (Return maximizers) ->
  exists attempts phi W b theta st,
    [/\ sample_features_weights cos sqrt (fun _ => X) model D rng =
        Some (attempts, Return (phi, W, b, theta)),
        (0 < D)%N,
        optimization_loop rmsprop_update min_val max_val
          (construct_maximizer_objective cos sqrt W b theta) num_steps
          (LoopState rmsprop_init uniform_x
             (loss_value cos sqrt W b theta uniform_x) 0 false) = Return st
      & select_maximizers cos sqrt W b theta (x_star st) =
        Return maximizers].
Proof.
rewrite /sample_maximizers.
case: sample_features_weights => [[a [[[[phi W] b] theta] | e]] | ] //.
case: (posnP D) => [D0 | D_gt0]; first by rewrite loss_Raise.
rewrite loss_Return //=.
case eq_loop: optimization_loop => [st | e] //= -[sel].
by exists a, phi, W, b, theta, st.
Qed.

(** A call whose sampling stage succeeds returns, provided there is a
    candidate to select. *)
Lemma sample_maximizers_returns attempts phi W b theta :
  sample_features_weights cos sqrt (fun _ => X) model D rng =
    Some (attempts, Return (phi, W, b, theta)) ->
  (0 < D)%N -> (0 < n_init)%N ->
  exists maximizers, call = Some (Return maximizers).
Proof.
move=> eq_sfw D_gt0 n_gt0; rewrite /sample_maximizers eq_sfw loss_Return //=.
have [st [eq_loop _]] :=
  optimization_loop_from_start W b theta rmsprop_init uniform_x num_steps D_gt0.
rewrite [X in bind X _]eq_loop /=.
have [m ->] := select_maximizers_Return W b theta (x_star st) D_gt0 n_gt0.
by exists m.
Qed.

(** C8: a returning call recomputes the function values
    [fvals = fourier_features(x_star, W, b) @ theta] of the final candidates
    with the [W], [b] and [theta] the sampling stage returned, and returns
    in every row a candidate whose function value is maximal; among equal
    values the candidate of lowest index is the one returned. *)
Theorem sample_maximizers_argmax (maximizers : 'M[R]_(count, d)) :
  call = Some (Return maximizers) ->
  exists attempts phi W b theta st,
    [/\ sample_features_weights cos sqrt (fun _ => X) model D rng =
        Some (attempts, Return (phi, W, b, theta)),
        optimization_loop rmsprop_update min_val max_val
          (construct_maximizer_objective cos sqrt W b theta) num_steps
          (LoopState rmsprop_init uniform_x
             (loss_value cos sqrt W b theta uniform_x) 0 false) = Return st,
        exists2 phi_star,
          fourier_features cos sqrt (x_star st) W b = Return phi_star &
          forall c i,
            fvals_of cos sqrt W b theta (x_star st) c i =
            (phi_star c *m theta c) i 0
      & forall c, exists j : 'I_n_init,
          let fvals := fvals_of cos sqrt W b theta (x_star st) in
          [/\ forall k, maximizers c k = x_star st c j k,
              forall i, fvals c i <= fvals c j
            & forall i : 'I_n_init, (i < j)%N -> fvals c i < fvals c j]].
Proof.
move=> /sample_maximizers_Return.
move=> [a [phi [W [b [theta [st [eq_sfw D_gt0 eq_loop sel]]]]]]].
exists a, phi, W, b, theta, st; split=> //.
  exists (features cos sqrt (x_star st) W b); first exact: fourier_features_Return.
  by move=> c i; rewrite mxE.
exact: select_maximizersP sel.
Qed.

End MaximizerSearch.

(** * Properties of [objectives.py] *)

Section ObjectiveHelpers.

Variable R : realDomainType.

Lemma argmin_uptoP (f : nat -> R) (m : nat) :
  let j := argmin_upto f m in
  [/\ (j <= m)%N, forall i, (i <= m)%N -> f j <= f i
    & forall i, (i < j)%N -> f j < f i].
Proof.
elim: m => [|m [j_le min_j first_j]] /=.
  by split=> // i; rewrite leqn0 => /eqP ->.
case: ltrP => [lt_new | le_new]; split=> //.
- move=> i; rewrite leq_eqVlt ltnS => /orP[/eqP -> // | /min_j le_i].
  exact: ltW (lt_le_trans lt_new le_i).
- by move=> i; rewrite ltnS => /min_j le_i; apply: lt_le_trans le_i.
- exact: leqW.
- by move=> i; rewrite leq_eqVlt ltnS => /orP[/eqP -> | /min_j].
Qed.

Lemma argmin_upto_le (f : nat -> R) (m : nat) : (argmin_upto f m <= m)%N.
Proof. by case: (argmin_uptoP f m). Qed.

(** The negated values: one more axis of length one, and the opposite of
    every value of the objective. *)
Lemma objective_get_f_neg_spec (x : ndarray R)
    (objective : ndarray R -> ndarray R) :
  shape (objective_get_f_neg x objective) = rcons (shape (objective x)) 1%N /\
  forall idx,
    item (objective_get_f_neg x objective) (rcons idx 0%N) =
    - item (objective x) idx.
Proof.
by split=> // idx; rewrite /= size_rcons /= -cats1 take_size_cat.
Qed.

Variable f : seq R -> R.
Variable x : ndarray R.
Variables q num_choices input_dims : nat.

(** The candidate [j] of the query [i]. *)
Let point (i j : nat) : seq R :=
  mkseq (fun k => item x [:: i; j; k]) input_dims.

Lemma broadcast_read (m i : nat) :
  (i < m)%N -> (if m == 1%N then 0%N else i) = i.
Proof. by case: eqP => // ->; rewrite ltnS leqn0 => /eqP. Qed.

(** X17: on a batch with exactly one leading axis, of shape
    [(q, num_choices, input_dims)] with at least one candidate,
    [objective_get_y] returns for every query the first candidate of lowest
    objective value. *)
Lemma objective_get_y_rank3 :
  shape x = [:: q; num_choices; input_dims] -> (0 < num_choices)%N ->
  exists y,
    [/\ objective_get_y x (pointwise f) = Return y,
        shape y = [:: q; input_dims]
      & forall i, (i < q)%N ->
        exists j,
          [/\ (j < num_choices)%N,
              forall k, (k < input_dims)%N ->
                item y [:: i; k] = item x [:: i; j; k],
              forall j', (j' < num_choices)%N ->
                f (point i j) <= f (point i j')
            & forall j', (j' < j)%N -> f (point i j) < f (point i j')]].
Proof.
move=> shape_x nc_gt0.
rewrite /objective_get_y /argmin_axis1 /pointwise /ndim shape_x /=.
rewrite (gtn_eqF nc_gt0) /= /take_along_axis /ndim shape_x /=.
rewrite eqxx.
have -> : (if input_dims == 1%N then Some [:: input_dims]
           else if input_dims == 1%N then Some [:: 1%N]
           else Some [:: input_dims]) = Some [:: input_dims].
  by case: (input_dims == 1%N).
set in_bounds := all _ _; have {in_bounds}-> : in_bounds.
  apply/allP => idx _; set j := (X in (X < _)%N).
  suff : (j <= num_choices.-1)%N by rewrite -ltnS prednK.
  rewrite {}/j; case: idx => [|i0 [|i1 [|i2 r]]] //.
  exact: argmin_upto_le.
rewrite /= /squeeze /ndim /=.
eexists; split; [by [] | by [] | move=> i i_lt_q].
set values := fun j => f (candidate x input_dims i j).
have [j_le min_j first_j] := argmin_uptoP values num_choices.-1.
exists (argmin_upto values num_choices.-1); split.
- by rewrite -ltnS prednK // in j_le.
- by move=> k k_lt /=; rewrite /candidate /mkseq /= !broadcast_read.
- by move=> j' j'_lt; apply: min_j; rewrite -ltnS prednK.
- exact: first_j.
Qed.
End ObjectiveHelpers.

(** * Further properties *)

Section FeatureRange.

Variable R : realFieldType.
Variables (cos sqrt : R -> R).
Variables count n d D : nat.
Variables (X : tensor R count n d) (W : tensor R count D d).
Variable b : tensor R count D 1.

(** X1: when [cos] takes its values in [[-1, 1]] and [sqrt(2/D)] is not
    negative, every feature returned by [fourier_features] lies in
    [[-sqrt(2/D), sqrt(2/D)]]. *)
Theorem fourier_features_range :
  (forall x, `|cos x| <= 1) -> 0 <= sqrt (2 / D%:R) -> (0 < D)%N ->
  exists phi : tensor R count n D,
    fourier_features cos sqrt X W b = Return phi /\
    forall c i j, - sqrt (2 / D%:R) <= phi c i j <= sqrt (2 / D%:R).
Proof.
move=> cos_le1 sqrt_ge0 D_gt0; rewrite fourier_features_Return //.
eexists; split=> // c i j; rewrite -ler_norml features_entry normrM.
by rewrite (ger0_norm sqrt_ge0) ler_piMr.
Qed.

End FeatureRange.

Section WeightSolve.

Variable R : realFieldType.
Variables count n D : nat.
Variable phi : tensor R count n D.
Variable q_mu : 'M[R]_(n, 1).
Variable q_sqrt : tensor R 1 n n.
Variable z : 'M[R]_(count, n).

(** X3: for [n >= D] the returned [theta] solves the normal equations
    [phi^T @ phi @ theta = phi^T @ f_sample] of the least-squares problem. *)
Theorem sample_theta_variational_normal_equations :
  (D <= n)%N -> gram_invertible phi ->
  exists theta : tensor R count D 1,
    sample_theta_variational phi q_mu q_sqrt z = Return theta /\
    forall c,
      (phi c)^T *m phi c *m theta c =
      (phi c)^T *m (q_sqrt ord0 *m (row c z)^T + q_mu).
Proof.
move=> D_le_n gram; rewrite (sample_theta_variational_Return _ _ _ gram).
eexists; split=> // c; rewrite /closed_form_theta -/(f_sample q_mu q_sqrt z c).
by move: (gram c); rewrite D_le_n => unit_gram; rewrite !mulmxA mulmxV // mul1mx.
Qed.

(** The closed form interpolates the function values when [n <= D]. *)
Lemma closed_form_interpolates (f : tensor R count n 1) (c : 'I_count) :
  (n <= D)%N -> gram_invertible phi ->
  phi c *m closed_form_theta phi f c = f c.
Proof.
move=> n_le_D gram; rewrite /closed_form_theta.
move: (gram c); case: (leqP D n) => [D_le_n | n_lt_D] unit_gram.
- have eq_nD : n = D by apply/eqP; rewrite eqn_leq n_le_D D_le_n.
  move: (phi c) (f c) unit_gram; rewrite -eq_nD => A g.
  exact: normal_equations_square.
- by rewrite !mulmxA mulmxV // mul1mx.
Qed.

End WeightSolve.
Section RetryOutcome.

Variable R : realFieldType.
Variables (cos sqrt : R -> R).
Variables count n d D : nat.
Variable X : tensor R count n d.
Variable model : gp_model R n.
Variable rng : nat -> draws R count n d D.

Local Notation attempt k := (try_sample cos sqrt X model D (rng k)).
Local Notation loop := (retry_loop cos sqrt X model D rng).

(** What the loop made before it ended: [j] failed passes and a last one. *)
Lemma retry_loop_inv (fuel a f a' : nat) out :
  (f < 100)%N -> loop fuel a f = Some (a', out) ->
  exists j,
    [/\ a' = (a + j).+1, (f + j < 100)%N,
        forall i, (i < j)%N -> attempt (a + i)%N = Raise InvalidArgumentError
      & attempt (a + j)%N = out /\ out <> Raise InvalidArgumentError \/
        [/\ attempt (a + j)%N = Raise InvalidArgumentError,
            out = Raise ValueError & (f + j).+1 = 100%N]].
Proof.
elim: fuel a f => [|fuel IH] a f //= f_lt.
case eq_try: (attempt a) => [res | e].
  rewrite leqNgt f_lt /= => -[<- <-]; exists 0%N.
  by rewrite !addn0; split=> //; left.
have [eq_e | neq_e] : e = InvalidArgumentError \/ e <> InvalidArgumentError.
- by case: e {eq_try}; [left | right | right | right | right | right].
- rewrite eq_e in eq_try *; case: (leqP 100 f.+1) => [f_ge | f1_lt].
    move=> [<- <-]; exists 0%N; rewrite !addn0; split=> //; right; split=> //.
    by apply/eqP; rewrite eqn_leq f_lt f_ge.
  move=> /(IH _ _ f1_lt) [j [-> fj_lt fails last]]; exists j.+1.
  rewrite !addnS -!addSn; split=> // i; case: i => [|i] //.
    by rewrite addn0.
  by rewrite ltnS addnS -addSn; apply: fails.
- have -> : (match e with
             | InvalidArgumentError =>
                 if (99 < f.+1)%N then Some (a.+1, Raise ValueError)
                 else loop fuel a.+1 f.+1
             | _ => Some (a.+1, @Raise (sampled R count n d D) e)
             end) = Some (a.+1, Raise e) by case: e neq_e {eq_try}.
  move=> [<- <-]; exists 0%N; rewrite !addn0; split=> //; left; split=> //.
  by move=> [].
Qed.

(** X4: whatever [sample_features_weights] does, it makes between 1 and
    100 passes; every pass but the last one failed with the singular-matrix
    error, and a returned tuple is what the last pass computed. *)
Theorem sample_features_weights_passes (attempts : nat) out :
  sample_features_weights cos sqrt X model D rng = Some (attempts, out) ->
  [/\ (0 < attempts <= 100)%N,
      forall i, (i < attempts.-1)%N -> attempt i = Raise InvalidArgumentError
    & forall res, out = Return res -> attempt attempts.-1 = Return res].
Proof.
move=> /(@retry_loop_inv 100 0 0 attempts out isT) [j []].
rewrite !add0n => -> j_lt fails last; split=> //= res eq_out.
case: last => [[-> _] // | [_ eq_ve _]].
by rewrite eq_out in eq_ve.
Qed.

Lemma retry_loop_other_error (j fuel a f : nat) (e : exn) :
  (f + j < 100)%N -> (j < fuel)%N -> e <> InvalidArgumentError ->
  (forall i, (i < j)%N -> attempt (a + i)%N = Raise InvalidArgumentError) ->
  attempt (a + j)%N = Raise e ->
  loop fuel a f = Some ((a + j).+1, Raise e).
Proof.
move=> + + neq_e; elim: j fuel a f => [|j IH] [|fuel] a f //=.
  by rewrite !addn0 => _ _ _ ->; case: e neq_e.
rewrite addnS => f_lt j_lt fails eq_try.
have := fails 0%N (ltn0Sn j); rewrite addn0 => ->.
have -> : (99 < f.+1)%N = false.
  apply/negbTE; rewrite -leqNgt -ltnS; apply: leq_ltn_trans f_lt.
  by rewrite ltnS leq_addr.
rewrite (IH fuel a.+1 f.+1) //.
- by move=> i i_lt; rewrite addSn -addnS fails.
- by rewrite addSn -addnS.
- by rewrite addSn addnS.
Qed.

(** X5: an exception of a pass that is not the singular-matrix error is
    not retried: it reaches the caller from the pass that raised it. *)
Theorem sample_features_weights_other_error (k : nat) (e : exn) :
  (k < 100)%N -> e <> InvalidArgumentError ->
  (forall i, (i < k)%N -> attempt i = Raise InvalidArgumentError) ->
  attempt k = Raise e ->
  sample_features_weights cos sqrt X model D rng = Some (k.+1, Raise e).
Proof.
by move=> k_lt neq_e fails eq_try; apply: (@retry_loop_other_error k 100 0 0).
Qed.

End RetryOutcome.

Section SamplingStages.

Variable R : realFieldType.
Variables (cos sqrt : R -> R).
Variables count n d D : nat.
Variable X : tensor R count n d.

(** What [sample_fourier_features] returns. *)
Lemma sample_fourier_features_inv (k : Kernel R)
    (nW : tensor R count D d) (ub : tensor R count D 1) phi W b :
  sample_fourier_features cos sqrt X k D nW ub = Return (phi, W, b) ->
  [/\ (0 < D)%N, b = ub, phi = features cos sqrt X W b
    & exists ls stddev,
        [/\ build_lengthscales k d = Return ls,
            stddev_of d ls = Return stddev & W = scaled_W stddev nW]].
Proof.
rewrite /sample_fourier_features.
case eq_ls: (build_lengthscales k d) => [ls | e] //=.
case eq_sd: (stddev_of d ls) => [stddev | e] //=.
case: (posnP D) => [D0 | D_gt0]; first by rewrite fourier_features_Raise.
rewrite fourier_features_Return //= => -[<- <- <-]; split=> //.
by exists ls, stddev.
Qed.

Lemma sample_fourier_features_stationary (ls : nparray R) (stddev : 'rV[R]_d)
    (nW : tensor R count D d) (ub : tensor R count D 1) :
  stddev_of d ls = Return stddev ->
  sample_fourier_features cos sqrt X (Stationary ls) D nW ub =
  Do phi <-- fourier_features cos sqrt X (scaled_W stddev nW) ub;
  Return (phi, scaled_W stddev nW, ub).
Proof. by rewrite /sample_fourier_features /= => ->. Qed.

Variable model : gp_model R n.

Lemma try_sample_inv (r : draws R count n d D) phi W b theta :
  try_sample cos sqrt X model D r = Return (phi, W, b, theta) ->
  sample_fourier_features cos sqrt X (kernel model) D (normal_W r)
    (uniform_b r) = Return (phi, W, b) /\
  sample_theta_variational phi (q_mu model) (q_sqrt model)
    (standard_normal_samples r) = Return theta.
Proof.
rewrite /try_sample.
case: (sample_fourier_features _ _ _ _ _ _ _) => [[[phi' W'] b'] | e] //=.
case eq_stv: (sample_theta_variational _ _ _ _) => [theta' | e] //=.
by move=> [<- <- <- <-].
Qed.

Variable rng : nat -> draws R count n d D.

(** X6: the tuple returned by [sample_features_weights] comes from its last
    pass: [phi] is the feature map of [X] under the returned [W] and [b],
    [b] is the offset drawn in that pass, and [theta] is what
    [sample_theta_variational] computes from [phi] and the normal draws of
    that pass; when the selected Gram matrix of [phi] is invertible and
    [n <= D], [theta] interpolates the sampled function values,
    [phi @ theta = f_sample]. *)
Theorem sample_features_weights_consistent attempts phi W b theta :
  sample_features_weights cos sqrt X model D rng =
    Some (attempts, Return (phi, W, b, theta)) ->
  let r := rng attempts.-1 in
  [/\ fourier_features cos sqrt X W b = Return phi,
      b = uniform_b r,
      sample_theta_variational phi (q_mu model) (q_sqrt model)
        (standard_normal_samples r) = Return theta
    & gram_invertible phi -> (n <= D)%N ->
      forall c,
        phi c *m theta c =
        q_sqrt model ord0 *m (row c (standard_normal_samples r))^T +
        q_mu model].
Proof.
move=> eq_sfw /=.
have [j []] := retry_loop_inv (isT : (0 < 100)%N) eq_sfw.
rewrite !add0n => -> _ _ /= [[eq_try _] | [_ //]].
have [/sample_fourier_features_inv [D_gt0 eq_b eq_phi _] eq_stv] :=
  try_sample_inv eq_try.
split=> //; first by rewrite eq_phi fourier_features_Return.
move=> gram n_le_D c; move: eq_stv.
rewrite (sample_theta_variational_Return _ _ _ gram) => -[<-].
exact: closed_form_interpolates.
Qed.

End SamplingStages.



Section DuplicatePoints.

Variable R : realFieldType.
Variables (cos sqrt : R -> R).
Variables count n d D : nat.
Variables (X : tensor R count n d) (W : tensor R count D d).
Variable b : tensor R count D 1.

(** X7: two equal points of [X] have equal features, whatever [W] and [b]
    are, so that [phi @ phi^T] is singular; with more features than points
    ([n < D]) this is the matrix [sample_theta_variational] inverts, and no
    draw of [W] and [b] makes it invertible. *)
Theorem fourier_features_duplicate_points (phi : tensor R count n D)
    (c : 'I_count) (i1 i2 : 'I_n) :
  i1 != i2 -> (forall k, X c i1 k = X c i2 k) ->
  fourier_features cos sqrt X W b = Return phi ->
  [/\ forall j, phi c i1 j = phi c i2 j,
      phi c *m (phi c)^T \notin unitmx
    & (n < D)%N -> ~ gram_invertible phi].
Proof.
move=> neq_i eq_points.
case: (posnP D) => [D0 | D_gt0]; first by rewrite fourier_features_Raise.
rewrite fourier_features_Return // => -[<-].
have eq_rows j :
    features cos sqrt X W b c i1 j = features cos sqrt X W b c i2 j.
  rewrite !features_entry; congr (_ * cos (_ + _)).
  by apply: eq_bigr => k _; rewrite eq_points.
have singular := gram_equal_rows neq_i eq_rows.
split=> // n_lt_D /(_ c); rewrite leqNgt n_lt_D /= => unit_gram.
by move: singular; rewrite unit_gram.
Qed.

End DuplicatePoints.

Section NoFeature.

Variable R : realFieldType.
Variables (cos sqrt : R -> R).
Variable opt_state : Type.
Variable rmsprop_init : opt_state.
Variables count n_init d n : nat.
Variable rmsprop_update :
  (tensor R count n_init d -> result R) -> opt_state ->
  tensor R count n_init d -> opt_state * tensor R count n_init d.
Variables (X : 'M[R]_(n, d)) (ls : nparray R) (stddev : 'rV[R]_d).
Variables (q_mu : 'M[R]_(n, 1)) (q_sqrt : tensor R 1 n n).
Variables (min_val max_val : R) (num_steps : nat).
Variable rng : nat -> draws R count n d 0.
Variable uniform_x : tensor R count n_init d.

Local Notation model := (GPModel (Stationary ls) q_mu q_sqrt).

(** X8: with [D = 0] features the first pass raises [ZeroDivisionError],
    which is not retried: [sample_maximizers] raises it after one pass. *)
Theorem sample_maximizers_no_feature :
  stddev_of d ls = Return stddev ->
  sample_features_weights cos sqrt (fun _ : 'I_count => X) model 0 rng =
    Some (1%N, Raise ZeroDivisionError) /\
  sample_maximizers cos sqrt rmsprop_init rmsprop_update X model
    min_val max_val num_steps rng uniform_x = Some (Raise ZeroDivisionError).
Proof.
move=> eq_sd.
have eq_sfw : sample_features_weights cos sqrt (fun _ : 'I_count => X) model
                0 rng = Some (1%N, Raise ZeroDivisionError).
  apply: (@retry_loop_other_error _ _ _ _ _ _ _ _ _ _ 0 100 0 0) => //.
  rewrite /try_sample /= (sample_fourier_features_stationary _ _ _ _ _ eq_sd).
  by rewrite fourier_features_Raise.
by split=> //; rewrite /sample_maximizers eq_sfw.
Qed.

End NoFeature.

Section LengthscaleErrors.

Variable R : realFieldType.
Variable l : nat -> R.
Variables m d : nat.
Variable kernels : seq (Kernel R).

(** The loop raises the exception of the first pass that fails. *)
Lemma mirror_loop_Raise (k0 : nat) (e : exn) (r k : nat) :
  (m + m <= d)%N -> (k + r <= m)%N -> (k <= k0 < k + r)%N ->
  (forall i, (i < k0)%N -> sub_lengthscale kernels i = Return (l i)) ->
  sub_lengthscale kernels k0 = Raise e ->
  mirror_loop kernels m (iota k r) (lengthscales_after l m d k) = Raise e.
Proof.
move=> mm_le_d + + sub_ok sub_fail.
elim: r k => [|r IH] k /=.
  by rewrite addn0 => _ /andP[k_le /(leq_ltn_trans k_le)]; rewrite ltnn.
rewrite addnS => kr_le /andP[k_le k0_lt].
have k_lt_m : (k < m)%N by apply: leq_trans kr_le; rewrite ltnS leq_addr.
move: k_le; rewrite leq_eqVlt => /orP[/eqP eq_k | k_lt_k0].
  move: sub_fail; rewrite -eq_k /sub_lengthscale.
  case: (list_getitem kernels k) => [ker | e'] /=; last by move=> [->].
  case: (get_lengthscale ker) => [lv | e'] /=; last by move=> [->].
  by case: (as_element lv) => [v | e'] //= [->].
move: (sub_ok k k_lt_k0); rewrite /sub_lengthscale.
case: (list_getitem kernels k) => //= ker.
case: (get_lengthscale ker) => //= lv.
case: (as_element lv) => //= v [->].
rewrite lengthscales_after_step //; apply: IH; first by rewrite addSn.
by rewrite k_lt_k0 addSn.
Qed.

Lemma sub_lengthscale_missing (i : nat) :
  (size kernels <= i)%N -> sub_lengthscale kernels i = Raise IndexError.
Proof.
move=> size_le; rewrite /sub_lengthscale /list_getitem.
by rewrite nth_default // size_map.
Qed.

End LengthscaleErrors.

Section LengthscaleEdges.

Variable R : realFieldType.
Variable l : nat -> R.
Variable d : nat.
Variable kernels : seq (Kernel R).

Lemma half_double : (d %/ 2 + d %/ 2 <= d)%N.
Proof. by rewrite addnn -muln2 leq_trunc_div. Qed.

Lemma build_lengthscales_Raise (k0 : nat) (e : exn) :
  (k0 < d %/ 2)%N ->
  (forall i, (i < k0)%N -> sub_lengthscale kernels i = Return (l i)) ->
  sub_lengthscale kernels k0 = Raise e ->
  build_lengthscales (Product kernels) d = Raise e.
Proof.
move=> k0_lt sub_ok sub_fail.
rewrite /build_lengthscales -(lengthscales_after0 l (d %/ 2)).
by rewrite (mirror_loop_Raise (k0 := k0) (e := e)) // half_double.
Qed.

Lemma build_lengthscales_Return :
  (forall i, (i < d %/ 2)%N -> sub_lengthscale kernels i = Return (l i)) ->
  build_lengthscales (Product kernels) d =
  Return (Vector (mirrored l (d %/ 2) d)).
Proof.
move=> sub_ok; rewrite /build_lengthscales -(lengthscales_after0 l (d %/ 2)).
by rewrite (@mirror_loop_run _ l) ?lengthscales_after_all // half_double.
Qed.

(** X9: a product kernel with fewer than [d // 2] sub-kernels, each with a
    single lengthscale, makes the loop read past the list [kernel.kernels]:
    [IndexError]. *)
Theorem build_lengthscales_too_few_kernels :
  (size kernels < d %/ 2)%N ->
  (forall i, (i < size kernels)%N -> sub_lengthscale kernels i = Return (l i)) ->
  build_lengthscales (Product kernels) d = Raise IndexError.
Proof.
move=> size_lt sub_ok; apply: (build_lengthscales_Raise size_lt sub_ok).
exact: sub_lengthscale_missing.
Qed.

(** X11: for an odd input dimension [d] the loop leaves the last entry
    of [lengthscales] at the [0] of [np.zeros(d)]. *)
Theorem build_lengthscales_odd_dimension :
  odd d ->
  (forall i, (i < d %/ 2)%N -> sub_lengthscale kernels i = Return (l i)) ->
  exists lengthscales,
    [/\ build_lengthscales (Product kernels) d = Return (Vector lengthscales),
        size lengthscales = d
      & nth 0 lengthscales d.-1 = 0].
Proof.
move=> odd_d /build_lengthscales_Return ->; eexists; split=> //.
  by rewrite size_mkseq.
have d_gt0 : (0 < d)%N by case: d odd_d.
rewrite nth_mkseq ?prednK //=.
have eq_d : d = (d %/ 2 + d %/ 2).+1.
  by rewrite {1}(divn_eq d 2) modn2 odd_d addn1 muln2 -addnn.
have lt2 : (d <= d %/ 2 + d %/ 2)%N = false by rewrite {1}eq_d ltnn.
have lt1 : (d <= d %/ 2)%N = false.
  by apply/negbTE; rewrite -ltnNge {2}eq_d ltnS leq_addr.
by rewrite lt1 lt2.
Qed.

End LengthscaleEdges.

(** X10: for [d >= 2], a product kernel whose first sub-kernel carries an
    array of two or more lengthscales raises [ValueError] at the first
    assignment [lengthscales[0] = lengthscale_val]. *)
Theorem build_lengthscales_array_lengthscale (R : realFieldType) (d : nat)
    (v1 v2 : R) (vs : seq R) (others : seq (Kernel R)) :
  (2 <= d)%N ->
  build_lengthscales
    (Product (Stationary (Vector [:: v1, v2 & vs]) :: others)) d =
  Raise ValueError.
Proof.
move=> d_ge2.
apply: (@build_lengthscales_Raise _ (fun _ => 0) _ _ 0 ValueError) => //.
by rewrite divn_gt0.
Qed.

Section SearchEdges.

Variable R : realFieldType.
Variables (cos sqrt : R -> R).
Variable opt_state : Type.
Variables count n_init d D : nat.
Variable rmsprop_update :
  (tensor R count n_init d -> result R) -> opt_state ->
  tensor R count n_init d -> opt_state * tensor R count n_init d.
Variables min_val max_val : R.

Lemma steps_run_gt0 (L : nat -> R) (num_steps t : nat) :
  (0 < num_steps)%N -> (0 < steps_run L num_steps t)%N.
Proof. by case: num_steps => // num_steps _ /=; case: ifP. Qed.

Lemma steps_run_zero_loss (L : nat -> R) (num_steps t : nat) :
  (forall i, L i = 0) -> steps_run L num_steps t = num_steps.
Proof.
move=> zero; elim: num_steps t => [|num_steps IH] t //=.
by rewrite /converged zero eqxx IH.
Qed.

Lemma clip_by_value_empty (x : R) :
  max_val < min_val -> clip_by_value x min_val max_val = min_val.
Proof.
move=> lt_bounds; rewrite /clip_by_value; apply/max_idPr.
by apply: le_trans (ltW lt_bounds); rewrite ge_min lexx orbT.
Qed.

Section Loop.

Variables (W : tensor R count D d) (b theta : tensor R count D 1).
Variables (s0 : opt_state) (x0 : tensor R count n_init d).

Local Notation loss := (construct_maximizer_objective cos sqrt W b theta).
Local Notation traj := (trajectory rmsprop_update min_val max_val loss).

(** After an update every coordinate is a clipped value. *)
Lemma trajectory_clipped (t : nat) c i k :
  exists v, (traj s0 x0 t.+1).2 c i k = clip_by_value v min_val max_val.
Proof.
rewrite /trajectory /= /update_step.
case: (rmsprop_update _ _ _) => s' x' /=.
by exists (x' c i k); rewrite /constraint mxE.
Qed.

End Loop.

Lemma loss_value_zero_theta (W : tensor R count D d) (b : tensor R count D 1)
    (x : tensor R count n_init d) :
  loss_value cos sqrt W b (fun _ => 0) x = 0.
Proof.
rewrite /loss_value /reduce_mean big1 ?mul0r ?oppr0 // => c _.
by rewrite big1 // => i _; rewrite mulmx0 mxE.
Qed.

(** X12: when the sampled weights [theta] are all zero the loss is zero at
    every candidate, the stopping test never holds, and the loop makes all
    its [num_steps] updates. *)
Theorem optimization_loop_zero_theta (W : tensor R count D d)
    (b : tensor R count D 1) (s0 : opt_state) (x0 : tensor R count n_init d)
    (num_steps : nat) :
  (0 < D)%N ->
  exists st',
    optimization_loop rmsprop_update min_val max_val
      (construct_maximizer_objective cos sqrt W b (fun _ => 0)) num_steps
      (LoopState s0 x0 0 0 false) = Return st' /\
    updates st' = num_steps.
Proof.
move=> D_gt0.
have [st' [eq_loop [_ upd_eq _]]] :=
  optimization_loop_from_start cos sqrt rmsprop_update min_val max_val W b
    (fun _ => 0) s0 x0 num_steps D_gt0.
exists st'; move: eq_loop; rewrite {1}/loss_at loss_value_zero_theta => ->.
split=> //; rewrite upd_eq steps_run_zero_loss // => t.
by rewrite /loss_at loss_value_zero_theta.
Qed.

Variable n : nat.
Variable rmsprop_init : opt_state.
Variables (X : 'M[R]_(n, d)) (model : gp_model R n) (num_steps : nat).
Variable rng : nat -> draws R count n d D.
Variable uniform_x : tensor R count n_init d.

Local Notation call :=
  (sample_maximizers cos sqrt rmsprop_init rmsprop_update X model
     min_val max_val num_steps rng uniform_x).

(** After at least one update, the returned coordinates are clipped values. *)
Lemma sample_maximizers_clipped (maximizers : 'M[R]_(count, d)) c k :
  (0 < num_steps)%N -> call = Some (Return maximizers) ->
  exists v, maximizers c k = clip_by_value v min_val max_val.
Proof.
move=> steps_gt0 eq_call.
have [a [phi [W [b [theta [st [_ D_gt0 eq_loop sel]]]]]]] :=
  sample_maximizers_Return eq_call.
have [st' [eq_loop' [x_eq _ _]]] :=
  optimization_loop_from_start cos sqrt rmsprop_update min_val max_val W b
    theta rmsprop_init uniform_x num_steps D_gt0.
move: eq_loop'; rewrite /= eq_loop => -[eq_st].
have [j [-> _ _]] := select_maximizersP sel c.
rewrite eq_st x_eq.
have := steps_run_gt0
  (loss_at cos sqrt W b theta rmsprop_update min_val max_val rmsprop_init
     uniform_x) 0 steps_gt0.
by case: (steps_run _ _ _) => // t _; apply: trajectory_clipped.
Qed.


(** X13: with [min_val <= max_val] and at least one iteration, every
    coordinate of the returned maximizers lies in [[min_val, max_val]],
    wherever the initial candidates were drawn. *)
Theorem sample_maximizers_in_box_after_update
    (maximizers : 'M[R]_(count, d)) :
  min_val <= max_val -> (0 < num_steps)%N ->
  sample_maximizers cos sqrt rmsprop_init rmsprop_update X model
    min_val max_val num_steps rng uniform_x = Some (Return maximizers) ->
  forall c k, min_val <= maximizers c k <= max_val.
Proof.
move=> le_bounds steps_gt0 eq_call c k.
have [v ->] := sample_maximizers_clipped c k steps_gt0 eq_call.
exact: clip_by_value_in.
Qed.

(** X14: with [max_val < min_val] and at least one iteration, every
    coordinate of the returned maximizers is [min_val]. *)
Theorem sample_maximizers_empty_box (maximizers : 'M[R]_(count, d)) :
  max_val < min_val -> (0 < num_steps)%N ->
  sample_maximizers cos sqrt rmsprop_init rmsprop_update X model
    min_val max_val num_steps rng uniform_x = Some (Return maximizers) ->
  forall c k, maximizers c k = min_val.
Proof.
move=> lt_bounds steps_gt0 eq_call c k.
have [v ->] := sample_maximizers_clipped c k steps_gt0 eq_call.
exact: clip_by_value_empty.
Qed.

End SearchEdges.

Section SearchDegenerate.

Variable R : realFieldType.
Variables (cos sqrt : R -> R).
Variable opt_state : Type.
Variable rmsprop_init : opt_state.
Variables count d D n : nat.
Variables (X : 'M[R]_(n, d)) (model : gp_model R n).
Variables min_val max_val : R.
Variable rng : nat -> draws R count n d D.

(** A successful sampling stage had at least one feature. *)
Lemma sample_features_weights_features attempts res :
  sample_features_weights cos sqrt (fun _ : 'I_count => X) model D rng =
    Some (attempts, Return res) -> (0 < D)%N.
Proof.
case: res => [[[phi W] b] theta] eq_sfw.
have [j []] := retry_loop_inv (isT : (0 < 100)%N) eq_sfw.
rewrite !add0n => _ _ _ [[eq_try _] | [_ //]].
by have [/sample_fourier_features_inv []] := try_sample_inv eq_try.
Qed.

(** X15: with no candidate ([n_init = 0]) and a successful sampling stage,
    [sample_maximizers] raises [InvalidArgumentError]: the argmax runs along
    an empty axis. *)
Theorem sample_maximizers_no_candidate
    (rmsprop_update :
       (tensor R count 0 d -> result R) -> opt_state ->
       tensor R count 0 d -> opt_state * tensor R count 0 d)
    (num_steps : nat) (uniform_x : tensor R count 0 d) attempts res :
  sample_features_weights cos sqrt (fun _ : 'I_count => X) model D rng =
    Some (attempts, Return res) ->
  sample_maximizers cos sqrt rmsprop_init rmsprop_update X model
    min_val max_val num_steps rng uniform_x =
  Some (Raise InvalidArgumentError).
Proof.
move=> eq_sfw; have D_gt0 := sample_features_weights_features eq_sfw.
case: res eq_sfw => [[[phi W] b] theta] eq_sfw.
rewrite /sample_maximizers eq_sfw loss_Return //=.
have [st [eq_loop _]] :=
  optimization_loop_from_start cos sqrt rmsprop_update min_val max_val W b
    theta rmsprop_init uniform_x num_steps D_gt0.
rewrite [X in bind X _]eq_loop /= /select_maximizers.
by rewrite fourier_features_Return.
Qed.

(** X16: with [num_steps = 0] every returned maximizer is one of the
    candidates that were drawn. *)
Theorem sample_maximizers_no_step (n_init : nat)
    (rmsprop_update :
       (tensor R count n_init d -> result R) -> opt_state ->
       tensor R count n_init d -> opt_state * tensor R count n_init d)
    (uniform_x : tensor R count n_init d) (maximizers : 'M[R]_(count, d)) :
  sample_maximizers cos sqrt rmsprop_init rmsprop_update X model
    min_val max_val 0 rng uniform_x = Some (Return maximizers) ->
  forall c, exists j : 'I_n_init, forall k, maximizers c k = uniform_x c j k.
Proof.
move=> eq_call c.
have [a [phi [W [b [theta [st [_ _ [<-] sel]]]]]]] :=
  sample_maximizers_Return eq_call.
by have [j [eq_row _ _]] := select_maximizersP sel c; exists j.
Qed.

End SearchDegenerate.

Section ObjectiveEdges.

Variable R : realDomainType.
Variable f : seq R -> R.
Variable x : ndarray R.

(** X18: on a batch without leading axis, of shape
    [(num_choices, input_dims)], [objective_get_y] raises [AxisError]. *)
Theorem objective_get_y_single_query :
  ndim x = 2%N -> objective_get_y x (pointwise f) = Raise AxisError.
Proof.
rewrite /objective_get_y /argmin_axis1 /pointwise /ndim /=.
by case: (shape x) => [|s0 [|s1 [|s2 shp]]].
Qed.

(** X19: on a batch with no candidate ([num_choices = 0])
    [objective_get_y] raises [ValueError]. *)
Theorem objective_get_y_no_choice (q input_dims : nat) :
  shape x = [:: q; 0%N; input_dims] ->
  objective_get_y x (pointwise f) = Raise ValueError.
Proof.
by move=> shape_x; rewrite /objective_get_y /argmin_axis1 /pointwise /ndim shape_x.
Qed.

(** X20: [objective_get_y] needs an objective that drops the last axis:
    with values of shape [(q, num_choices, 1)], as [cifar] returns them, it
    raises [ValueError]. *)
Theorem objective_get_y_trailing_axis (objective : ndarray R -> ndarray R)
    (q num_choices input_dims : nat) :
  shape x = [:: q; num_choices; input_dims] ->
  shape (objective x) = [:: q; num_choices; 1%N] -> (0 < num_choices)%N ->
  objective_get_y x objective = Raise ValueError.
Proof.
move=> shape_x shape_evals nc_gt0.
rewrite /objective_get_y /argmin_axis1 shape_evals (gtn_eqF nc_gt0) /=.
by rewrite /take_along_axis /ndim shape_x.
Qed.

End ObjectiveEdges.

Section TestFunctionFacts.

Variable R : realFieldType.
Variables (sin exp : R -> R).

Lemma last_axis_item_Return (x : ndarray R) (k : nat) :
  (0 < ndim x)%N -> (k < last 0%N (shape x))%N ->
  last_axis_item x k =
  Return (NdArray (take (ndim x).-1 (shape x))
            (fun idx => item x (rcons idx k))).
Proof. by rewrite /last_axis_item lt0n => /negPf -> ->. Qed.

(** X21: when [sin] takes its values in [[-1, 1]], [forrester] returns an
    array of the leading shape whose value at a point of [[0, 1]] lies in
    [[-16, 16]]. *)
Theorem forrester_range (x : ndarray R) :
  (forall v, `|sin v| <= 1) ->
  (0 < ndim x)%N -> (0 < last 0%N (shape x))%N ->
  exists y,
    [/\ forrester sin x = Return y, shape y = take (ndim x).-1 (shape x)
      & forall idx,
          0 <= item x (rcons idx 0%N) <= 1 -> - 16 <= item y idx <= 16].
Proof.
move=> sin_le1 ndim_gt0 last_gt0.
rewrite /forrester last_axis_item_Return //=.
eexists; split=> // idx /=; set v := item x _ => /andP[v_ge0 v_le1].
have norm_le4 : `|6 * v - 2| <= 4.
  rewrite ler_norml; apply/andP; split.
    rewrite lerBrDr; apply: le_trans (_ : 0 <= _); last by rewrite mulr_ge0.
    by rewrite addrC subr_le0 ler_nat.
  have -> : 4 = 6 * 1 - 2 :> R by rewrite mulr1 -natrB.
  by rewrite lerD2r ler_pM2l // ltr0n.
have eq16 : 4 * 4 * 1 = 16 :> R by rewrite mulr1 -natrM.
rewrite -ler_norml !normrM -eq16.
by apply: ler_pM => //; [apply: mulr_ge0 | apply: ler_pM].
Qed.

(** X22: [six_hump_camel] is even: it takes the same values on [-x] as on
    [x]. *)
Theorem six_hump_camel_even (x y : ndarray R) :
  six_hump_camel x = Return y ->
  exists y',
    [/\ six_hump_camel (negative x) = Return y', shape y' = shape y
      & forall idx, item y' idx = item y idx].
Proof.
rewrite /six_hump_camel /last_axis_item /ndim /=.
case: (size (shape x) == 0%N) => //=.
case: ifP => //= _; case: ifP => //= _ [<-].
eexists; split=> // idx /=.
by rewrite !sqrrN mulrNN -[4%N]/(2 * 2)%N !exprM sqrrN.
Qed.

Lemma hartmann_A_ge0 (i j : nat) :
  0 <= nth 0 (nth [::] (hartmann_A R) i) j.
Proof.
case: i => [|[|[|[|i]]]]; case: j => [|[|[|j]]] //=;
  by rewrite ?nth_nil ?divr_ge0 ?ler0n.
Qed.

Lemma hartmann_exponent_le0 (f : nat -> R) (i : nat) :
  - (\sum_(0 <= j < 3)
        nth 0 (nth [::] (hartmann_A R) i) j *
        (f j - nth 0 (nth [::] (hartmann_P R) i) j) ^+ 2) <= 0.
Proof.
rewrite oppr_le0; apply: sumr_ge0 => j _.
by apply: mulr_ge0; [exact: hartmann_A_ge0 | exact: sqr_ge0].
Qed.

Lemma hartmann_alpha_ge0 (i : nat) : 0 <= nth 0 (hartmann_alpha R) i.
Proof.
by case: i => [|[|[|[|i]]]] //=; rewrite ?nth_nil ?divr_ge0 ?ler0n.
Qed.

Lemma hartmann_alpha_sum :
  \sum_(0 <= i < 4) nth 0 (hartmann_alpha R) i = 1 + 12 / 10 + 3 + 32 / 10.
Proof.
rewrite /index_iota -[iota _ _]/([:: 0; 1; 2; 3]%N) !big_cons big_nil.
by rewrite addr0 !addrA.
Qed.

Lemma hartmann_sum_bounds (t : nat -> R) :
  (forall i, 0 < t i <= 1) ->
  0 < \sum_(0 <= i < 4) nth 0 (hartmann_alpha R) i * t i
    <= 1 + 12 / 10 + 3 + 32 / 10.
Proof.
move=> t_bounds; apply/andP; split.
  rewrite big_ltn // ltr_pwDl //.
    by case/andP: (t_bounds 0%N) => t_gt0 _; rewrite /= mul1r.
  apply: sumr_ge0 => i _; apply: mulr_ge0; first exact: hartmann_alpha_ge0.
  by case/andP: (t_bounds i) => /ltW.
rewrite -hartmann_alpha_sum; apply: ler_sum => i _.
rewrite -[X in _ <= X]mulr1 ler_wpM2l ?hartmann_alpha_ge0 //.
by case/andP: (t_bounds i).
Qed.

(** X23: when [exp] is positive and at most [1] on non-positive numbers,
    [hartmann3d] takes its values in [[-(1 + 1.2 + 3 + 3.2), 0)] on batches
    of points with three coordinates. *)
Theorem hartmann3d_range (x : ndarray R) :
  (forall v, 0 < exp v) -> (forall v, v <= 0 -> exp v <= 1) ->
  (0 < ndim x)%N -> last 0%N (shape x) = 3%N ->
  exists y,
    [/\ hartmann3d exp x = Return y, shape y = take (ndim x).-1 (shape x)
      & forall idx, - (1 + 12 / 10 + 3 + 32 / 10) <= item y idx < 0].
Proof.
move=> exp_gt0 exp_le1 ndim_gt0 last3.
rewrite /hartmann3d (gtn_eqF ndim_gt0) /= last3 /=.
eexists; split=> // idx /=; rewrite lerN2 oppr_lt0 andbC.
apply: (hartmann_sum_bounds (t := fun i => exp _)) => i.
by rewrite exp_gt0 exp_le1 // hartmann_exponent_le0.
Qed.

End TestFunctionFacts.

Section IndexFacts.

(** The indices of a shape are the sequences that stay below it. *)
Lemma mem_all_indices (shp idx : seq nat) :
  (idx \in all_indices shp) = all2 ltn idx shp.
Proof.
elim: shp idx => [|s shp IH] [|i idx] //=.
- apply/negbTE/negP => /flattenP [rows /mapP [i0 _ ->]].
  by move=> /mapP [].
- apply/flattenP/andP => [[rows /mapP [i0 i0_in ->] /mapP [r r_in [-> ->]]] |].
    by move: i0_in; rewrite mem_iota add0n /= -IH.
  move=> [i_lt idx_ok]; exists [seq i :: r | r <- all_indices shp].
    by apply/mapP; exists i => //; rewrite mem_iota add0n.
  by apply/mapP; exists idx => //; rewrite IH.
Qed.

End IndexFacts.

Section SushiFacts.

Variable R : realFieldType.
Variable feat_to_fval_dict : table R.

Lemma sushi_rows_found (p : seq nat -> seq R) (fval : seq nat -> R)
    (idxs : seq (seq nat)) :
  (forall idx, idx \in idxs -> feat_to_fval_dict (p idx) = Some (fval idx)) ->
  sushi_rows feat_to_fval_dict [seq p idx | idx <- idxs] =
  inr [seq - fval idx | idx <- idxs].
Proof.
elim: idxs => [|idx idxs IH] //= found.
rewrite found ?mem_head // IH // => idx' idx'_in.
by apply: found; rewrite in_cons idx'_in orbT.
Qed.

Lemma sushi_rows_missing (rows : seq (seq R)) (row : seq R) :
  row \in rows -> feat_to_fval_dict row = None ->
  sushi_rows feat_to_fval_dict rows = inl KeyError.
Proof.
move=> + missing; elim: rows => [|row' rows IH] //=.
rewrite in_cons => /orP[/eqP <- | /IH ->]; first by rewrite missing.
by case: (feat_to_fval_dict row').
Qed.

Variable x : ndarray R.

(** X24: when every point of the batch is a key of the dictionary, [sushi]
    returns an array of the leading shape holding the opposite of the
    dictionary's value at every point. *)
Theorem sushi_found (fval : seq nat -> R) :
  (0 < ndim x)%N -> (0 < last 0%N (shape x))%N ->
  (forall idx, idx \in all_indices (leading_shape x) ->
     feat_to_fval_dict (point_at x idx) = Some (fval idx)) ->
  exists y,
    [/\ sushi x feat_to_fval_dict = inr y, shape y = leading_shape x
      & forall idx, idx \in all_indices (leading_shape x) ->
          item y idx = - fval idx].
Proof.
move=> ndim_gt0 last_gt0 found.
rewrite /sushi (gtn_eqF ndim_gt0) (gtn_eqF last_gt0).
rewrite -/(leading_shape x) (sushi_rows_found (fval := fval)) //.
eexists; split=> // idx idx_in /=.
by rewrite (nth_map [::]) ?index_mem // nth_index.
Qed.

(** X25: when some point of the batch is no key of the dictionary,
    [sushi] raises [KeyError]. *)
Theorem sushi_missing (idx : seq nat) :
  (0 < ndim x)%N -> (0 < last 0%N (shape x))%N ->
  idx \in all_indices (leading_shape x) ->
  feat_to_fval_dict (point_at x idx) = None ->
  sushi x feat_to_fval_dict = inl KeyError.
Proof.
move=> ndim_gt0 last_gt0 idx_in missing.
rewrite /sushi (gtn_eqF ndim_gt0) (gtn_eqF last_gt0).
rewrite (sushi_rows_missing _ missing) //.
by apply/mapP; exists idx.
Qed.

End SushiFacts.

(** * Examples

    The theorems above at concrete inputs over the rationals, and the inputs
    at which a statement fails. *)

(** The Gram matrices of [phi_tall] and [phi_wide] are the matrix [(2)]. *)
Lemma phi_tall_gram : gram_invertible phi_tall.
Proof.
by move=> c /=; rewrite unitmx11 !mxE !big_ord_recl big_ord0 !mxE.
Qed.

Lemma phi_wide_gram : gram_invertible phi_wide.
Proof.
by move=> c /=; rewrite unitmx11 !mxE !big_ord_recl big_ord0 !mxE.
Qed.

(** C1 at two points and one feature (the branch [n >= D]). *)
Lemma sample_theta_variational_spec_witness :
  gram_invertible phi_tall /\
  exists theta : tensor rat 1 1 1,
    sample_theta_variational phi_tall 0 (fun _ => 1%:M) 0 = Return theta /\
    forall c,
      let f := (1%:M : 'M_2) *m (row c (0 : 'M_(1, 2)))^T + 0 in
      theta c = invmx ((phi_tall c)^T *m phi_tall c) *m (phi_tall c)^T *m f.
Proof.
split; first exact: phi_tall_gram.
exact: (sample_theta_variational_spec 0 (fun _ => 1%:M) 0 phi_tall_gram).
Defined.

(** C2 at one point and two features (the branch [n < D]). *)
Lemma posterior_consistency_witness :
  [/\ (1 <= 2)%N, gram_invertible phi_wide
    & exists theta : tensor rat 1 2 1,
        sample_theta_variational phi_wide 0 (fun _ => 1%:M) 0 = Return theta /\
        forall c,
          phi_wide c *m theta c =
          (1%:M : 'M_1) *m (row c (0 : 'M_(1, 1)))^T + 0].
Proof.
split=> //; first exact: phi_wide_gram.
exact: (@posterior_consistency rat 1 1 2 phi_wide 0 (fun _ => 1%:M) 0 isT
          phi_wide_gram).
Defined.

(** C3, as amended, with one feature. *)
Lemma fourier_features_spec_witness :
  (0 < 1)%N /\
  exists phi : tensor rat 1 1 1,
    [/\ fourier_features idfun idfun (origin 1 1 1) (origin 1 1 1)
          (origin 1 1 1) = Return phi,
        forall c i j,
          phi c i j =
          idfun (2 / 1%:R) *
          idfun (\sum_k origin 1 1 1 c j k * origin 1 1 1 c i k +
                 origin 1 1 1 c j 0)
      & forall r1 r2,
          fourier_features idfun idfun (origin 1 1 1) (origin 1 1 1)
            (origin 1 1 1) = r1 ->
          fourier_features idfun idfun (origin 1 1 1) (origin 1 1 1)
            (origin 1 1 1) = r2 ->
          r1 = r2].
Proof.
split=> //.
exact: (@fourier_features_spec _ idfun idfun 1 1 1 1 (origin 1 1 1)
          (origin 1 1 1) (origin 1 1 1) isT).
Defined.

(** C3 as stated fails without features: for [W] of shape [(1, 0, 1)] the
    division [2.0 / D] raises [ZeroDivisionError] and no [phi] is
    returned. *)
Lemma fourier_features_no_feature :
  fourier_features idfun idfun (origin 1 1 1) (origin 1 0 1) (origin 1 0 1) =
  Raise ZeroDivisionError.
Proof. by []. Qed.

Lemma scalar_kernels_sub (i : nat) :
  (i < 4 %/ 2)%N ->
  sub_lengthscale scalar_kernels i = Return (nth 0 [:: 1; 2] i).
Proof. by case: i => [|[|]]. Qed.

(** C4, as amended, for [d = 4] and two sub-kernels with the lengthscales
    [1.0] and [2.0]. *)
Lemma build_lengthscales_product_witness :
  (forall i, (i < 4 %/ 2)%N ->
     sub_lengthscale scalar_kernels i = Return (nth 0 [:: 1; 2] i)) /\
  build_lengthscales (Product scalar_kernels) 4 =
  Return (Vector (mirrored (nth 0 [:: 1; 2]) (4 %/ 2) 4)).
Proof.
split; first exact: scalar_kernels_sub.
exact: (proj1 (build_lengthscales_product scalar_kernels_sub)).
Defined.

(** C4 as stated fails: for [d = 4] and a product of two kernels whose first
    kernel has the lengthscales [[1.0, 2.0]], storing that array in
    [lengthscales[0]] raises [ValueError], and the vector
    [[1.0, 2.0, 1.0, 2.0]] is not built. *)
Lemma build_lengthscales_two_vectors :
  build_lengthscales (Product vector_kernels) 4 = Raise ValueError /\
  build_lengthscales (Product vector_kernels) 4 <>
  Return (Vector [:: 1; 2; 1; 2]).
Proof. by []. Qed.

(** Two equal points and three features: every pass fails. *)
Lemma still_draws_fail (k : nat) :
  try_sample idfun idfun (origin 1 2 1) (unit_model 2) 3
    (still_draws 1 2 1 3 k) = Raise InvalidArgumentError.
Proof.
apply: (@try_sample_equal_points _ _ _ _ _ _ _ _ _ _ _ _ ord0 ord0
          (lift ord0 ord0)) => // j.
by rewrite /origin !mxE.
Qed.

(** One point and one feature, with [cos] and [sqrt] the identity: the
    feature is [2 * b], so the first pass of [late_draws] fails and the
    later ones succeed. *)
Lemma late_draws_fail :
  try_sample idfun idfun (origin 1 1 1) (unit_model 1) 1 (late_draws 0) =
  Raise InvalidArgumentError.
Proof.
apply: (@try_sample_Raise _ _ _ _ _ _ _ _ _ _ _ _ ord0) => //=.
rewrite unitmx11 negbK !mxE big_ord1 !features_entry !big_ord1 !mxE.
by rewrite mulf_eq0; apply/orP; right.
Qed.

Lemma late_draws_success (k : nat) :
  exists res,
    try_sample idfun idfun (origin 1 1 1) (unit_model 1) 1 (late_draws k.+1) =
    Return res.
Proof.
eexists; apply: try_sample_Return => // c /=.
by rewrite unitmx11 !(mxE, big_ord1, features_entry).
Qed.

Lemma late_draws_sampled :
  exists res,
    sample_features_weights idfun idfun (origin 1 1 1) (unit_model 1) 1
      late_draws = Some (2%N, Return res).
Proof.
have [res ok] := late_draws_success 0; exists res.
apply: (@retry_loop_success _ _ _ _ _ _ _ _ _ _ 1 100 0 0) => //.
by case=> // _; exact: late_draws_fail.
Qed.

(** C5 on a run of one hundred failures and on a run that succeeds at its
    second pass. *)
Lemma sample_features_weights_retry_witness :
  sample_features_weights idfun idfun (origin 1 2 1) (unit_model 2) 3
    (still_draws 1 2 1 3) = Some (100%N, Raise ValueError) /\
  exists res,
    sample_features_weights idfun idfun (origin 1 1 1) (unit_model 1) 1
      late_draws = Some (2%N, Return res).
Proof.
split.
- have [all_fail _ _] :=
    sample_features_weights_retry idfun idfun (origin 1 2 1) (unit_model 2)
      (still_draws 1 2 1 3).
  by apply: all_fail => k _; exact: still_draws_fail.
- have [_ first_success _] :=
    sample_features_weights_retry idfun idfun (origin 1 1 1) (unit_model 1)
      late_draws.
  have [res ok] := late_draws_success 0; exists res.
  apply: first_success => //.
  by case=> // _; exact: late_draws_fail.
Defined.

Local Notation example_call :=
  (sample_maximizers idfun idfun tt push_update (0 : 'M[rat]_(1, 1))
     (unit_model 1) 0 1 3 late_draws half_start).

Lemma example_call_returns :
  exists maximizers, example_call = Some (Return maximizers).
Proof.
have [[[[phi W] b] theta] eq_sfw] := late_draws_sampled.
exact: (sample_maximizers_returns push_update 0 1 tt 3 half_start eq_sfw).
Qed.



(** C8 on the same call. *)
Lemma sample_maximizers_argmax_witness :
  exists maximizers,
    example_call = Some (Return maximizers) /\
    exists (W : tensor rat 1 1 1) (b theta : tensor rat 1 1 1)
           (x : tensor rat 1 2 1),
      forall c, exists j : 'I_2,
        let fvals := fvals_of idfun idfun W b theta x in
        [/\ forall k, maximizers c k = x c j k,
            forall i, fvals c i <= fvals c j
          & forall i : 'I_2, (i < j)%N -> fvals c i < fvals c j].
Proof.
have [maximizers eq_call] := example_call_returns.
exists maximizers; split=> //.
have [a [phi [W [b [theta [st [_ _ _ first_max]]]]]]] :=
  sample_maximizers_argmax eq_call.
by exists W, b, theta, (x_star st).
Defined.


Local Notation example_loss :=
  (loss_at idfun idfun (origin 1 1 1) (fun _ => const_mx 1)
     (fun _ => const_mx 1) push_update 0 1 tt half_start).

Local Notation example_loop :=
  (optimization_loop push_update 0 1
     (construct_maximizer_objective idfun idfun (origin 1 1 1)
        (fun _ => const_mx 1) (fun _ => const_mx 1)) 3
     (LoopState tt half_start (example_loss 0%N) 0 false)).

(** With [W = 0] and [b = theta = 1] the loss is [-2] at all candidates. *)
Lemma example_loss_value (x : tensor rat 1 2 1) :
  loss_value idfun idfun (origin 1 1 1) (fun _ => const_mx 1)
    (fun _ => const_mx 1) x = - 2.
Proof.
rewrite /loss_value /reduce_mean !(big_ord_recl, big_ord0, mxE, features_entry).
by rewrite /= !mul0r !add0r.
Qed.

Lemma example_loss_nonzero (t : nat) : example_loss t != 0.
Proof. by rewrite /loss_at example_loss_value. Qed.

(** C7 on a loop of three iterations. *)
Lemma optimization_loop_steps_witness :
  (0 < 1)%N /\
  exists st',
    [/\ example_loop = Return st', (updates st' <= 3)%N
      & (updates st' < 3)%N ->
        relative_change (example_loss (updates st'))
          (example_loss (updates st').-1) < tolerance rat].
Proof.
split; first by [].
have [st' [eq_loop [le_steps _ _ _ early]]] :=
  optimization_loop_steps idfun idfun push_update 0 1 (origin 1 1 1)
    (fun _ => const_mx 1) (fun _ => const_mx 1) tt half_start 3 isT.
exists st'; split; [exact: eq_loop | exact: le_steps | move=> lt_steps].
by have [_ _ small] := early lt_steps.
Defined.

(** C10 on the same loop, whose losses are never zero. *)
Lemma stopping_test_defined_witness :
  (0 < 1)%N /\
  exists st',
    [/\ example_loop = Return st',
        forall t, (t < updates st')%N -> example_loss t != 0
      & zero_divide st' = false].
Proof.
split; first by [].
have [st' [eq_loop defined]] :=
  stopping_test_defined idfun idfun push_update 0 1 (origin 1 1 1)
    (fun _ => const_mx 1) (fun _ => const_mx 1) tt half_start 3 isT.
have nonzero t : (t < updates st')%N -> example_loss t != 0.
  by move=> _; exact: example_loss_nonzero.
have [no_divide _] := defined nonzero.
by exists st'; split; [exact: eq_loop | exact: nonzero | exact: no_divide].
Defined.

(** C9: [objective_get_y] at a batch with two leading axes, of shape
    [(1, 2, 2, 2)], with the objective reading the first coordinate.  The
    candidates of lowest value are [[3, 30]] and [[1, 10]]; the code takes
    the argmin along axis 1, which is the second leading axis and not the
    axis of the candidates, and returns [[[[3, 50], [7, 10]]]]: two points
    that are no candidate of their query. *)
Theorem objective_get_y_two_leading_axes :
  match objective_get_y two_queries (pointwise first_coordinate) with
  | Return y =>
      contents y = ([:: 1; 2; 2]%N, [:: 3; 50; 7; 10]) /\
      contents y <> ([:: 1; 2; 2]%N, [:: 3; 30; 1; 10])
  | Raise _ => False
  end.
Proof. by vm_compute. Qed.

(** Without a leading axis the argmin along axis 1 raises [AxisError]. *)
Lemma objective_get_y_no_leading_axis :
  objective_get_y one_query (pointwise first_coordinate) = Raise AxisError.
Proof. by []. Qed.

(** [objective_get_f_neg] on the same batch: the negated values, with one
    more axis. *)
Lemma objective_get_f_neg_two_queries :
  contents (objective_get_f_neg two_queries (pointwise first_coordinate)) =
  ([:: 1; 2; 2; 1]%N, [:: -5; -3; -1; -7]).
Proof. by vm_compute. Qed.

(** * Examples of the further properties *)

(** X1 with one feature and the constant [1] for [cos] and [sqrt]. *)
Lemma fourier_features_range_witness :
  [/\ forall x : rat, `|(fun _ : rat => 1 : rat) x| <= 1,
      0 <= (fun _ : rat => 1 : rat) (2 / 1%:R), (0 < 1)%N
    & exists phi : tensor rat 1 1 1,
        fourier_features (fun _ => 1) (fun _ => 1) (origin 1 1 1)
          (origin 1 1 1) (origin 1 1 1) = Return phi /\
        forall c i j, - 1 <= phi c i j <= 1].
Proof.
have cos_le1 (x : rat) : `|(fun _ : rat => 1 : rat) x| <= 1 by [].
have sqrt_ge0 : 0 <= (fun _ : rat => 1 : rat) (2 / 1%:R) by [].
split=> //.
exact: (fourier_features_range (origin 1 1 1) (origin 1 1 1) (origin 1 1 1)
          cos_le1 sqrt_ge0 isT).
Defined.

(** X3 at two points and one feature. *)
Lemma sample_theta_variational_normal_equations_witness :
  [/\ (1 <= 2)%N, gram_invertible phi_tall
    & exists theta : tensor rat 1 1 1,
        sample_theta_variational phi_tall 0 (fun _ => 1%:M) 0 = Return theta /\
        forall c,
          (phi_tall c)^T *m phi_tall c *m theta c =
          (phi_tall c)^T *m
            ((1%:M : 'M_2) *m (row c (0 : 'M_(1, 2)))^T + 0)].
Proof.
split; [by [] | exact: phi_tall_gram |].
exact: (@sample_theta_variational_normal_equations rat 1 2 1 phi_tall 0
          (fun _ => 1%:M) 0 isT phi_tall_gram).
Defined.

(** X4 on the run that succeeds at its second pass. *)
Lemma sample_features_weights_passes_witness :
  exists res,
    [/\ sample_features_weights idfun idfun (origin 1 1 1) (unit_model 1) 1
          late_draws = Some (2%N, Return res),
        (0 < 2 <= 100)%N,
        forall i, (i < 1)%N ->
          try_sample idfun idfun (origin 1 1 1) (unit_model 1) 1
            (late_draws i) = Raise InvalidArgumentError
      & try_sample idfun idfun (origin 1 1 1) (unit_model 1) 1
          (late_draws 1) = Return res].
Proof.
have [res eq_sfw] := late_draws_sampled; exists res.
have [bounds failed last_pass] := sample_features_weights_passes eq_sfw.
split; [exact: eq_sfw | exact: bounds | exact: failed |].
exact: (last_pass res (erefl _)).
Defined.

(** Without features the first pass raises [ZeroDivisionError]. *)
Lemma no_feature_pass :
  try_sample idfun idfun (origin 1 1 1) (unit_model 1) 0
    (still_draws 1 1 1 0 0) = Raise ZeroDivisionError.
Proof. by []. Qed.

(** X5 on a call without features. *)
Lemma sample_features_weights_other_error_witness :
  [/\ (0 < 100)%N, ZeroDivisionError <> InvalidArgumentError,
      try_sample idfun idfun (origin 1 1 1) (unit_model 1) 0
        (still_draws 1 1 1 0 0) = Raise ZeroDivisionError
    & sample_features_weights idfun idfun (origin 1 1 1) (unit_model 1) 0
        (still_draws 1 1 1 0) = Some (1%N, Raise ZeroDivisionError)].
Proof.
have other : ZeroDivisionError <> InvalidArgumentError by [].
have none_before i :
    (i < 0)%N ->
    try_sample idfun idfun (origin 1 1 1) (unit_model 1) 0
      (still_draws 1 1 1 0 i) = Raise InvalidArgumentError.
  by [].
split; [by [] | exact: other | exact: no_feature_pass |].
exact: (@sample_features_weights_other_error _ idfun idfun 1 1 1 0
          (origin 1 1 1) (unit_model 1) (still_draws 1 1 1 0) 0
          ZeroDivisionError isT other none_before no_feature_pass).
Defined.

(** X6 on the run that succeeds at its second pass. *)
Lemma sample_features_weights_consistent_witness :
  exists (phi W b theta : tensor rat 1 1 1),
    [/\ sample_features_weights idfun idfun (origin 1 1 1) (unit_model 1) 1
          late_draws = Some (2%N, Return (phi, W, b, theta)),
        fourier_features idfun idfun (origin 1 1 1) W b = Return phi,
        b = uniform_b (late_draws 1),
        gram_invertible phi
      & forall c,
          phi c *m theta c =
          (1%:M : 'M_1) *m (row c (0 : 'M_(1, 1)))^T + 0].
Proof.
have [[[[phi W] b] theta] eq_sfw] := late_draws_sampled.
exists phi, W, b, theta.
have [eq_phi eq_b eq_theta interpolates] :=
  sample_features_weights_consistent eq_sfw.
have gram : gram_invertible phi.
  move: eq_phi; rewrite fourier_features_Return // => -[<-] c /=.
  rewrite unitmx11 !(mxE, big_ord1, features_entry) eq_b /=.
  by rewrite !mxE mulr0 add0r.
split; [exact: eq_sfw | exact: eq_phi | exact: eq_b | exact: gram |].
exact: (interpolates gram isT).
Defined.

(** X7 on two points at the origin and three features. *)
Lemma fourier_features_duplicate_points_witness :
  exists phi : tensor rat 1 2 3,
    [/\ ord0 != lift ord0 ord0 :> 'I_2,
        fourier_features idfun idfun (origin 1 2 1) (origin 1 3 1)
          (origin 1 3 1) = Return phi,
        forall j, phi ord0 ord0 j = phi ord0 (lift ord0 ord0) j,
        phi ord0 *m (phi ord0)^T \notin unitmx
      & ~ gram_invertible phi].
Proof.
have [phi eq_phi] :
    exists phi : tensor rat 1 2 3,
      fourier_features idfun idfun (origin 1 2 1) (origin 1 3 1)
        (origin 1 3 1) = Return phi.
  by eexists.
have distinct : ord0 != lift ord0 ord0 :> 'I_2 by [].
have equal (k : 'I_1) :
    origin 1 2 1 ord0 ord0 k = origin 1 2 1 ord0 (lift ord0 ord0) k.
  by rewrite /origin !mxE.
have [eq_rows singular no_gram] :=
  fourier_features_duplicate_points distinct equal eq_phi.
exists phi; split;
  [exact: distinct | exact: eq_phi | exact: eq_rows | exact: singular |].
exact: (no_gram isT).
Defined.

(** X8 on a call without features. *)
Lemma sample_maximizers_no_feature_witness :
  exists stddev : 'rV[rat]_1,
    [/\ stddev_of 1 (Scalar 1) = Return stddev,
        sample_features_weights idfun idfun (fun _ => 0 : 'M[rat]_(1, 1))
          (unit_model 1) 0 (still_draws 1 1 1 0) =
        Some (1%N, Raise ZeroDivisionError)
      & sample_maximizers idfun idfun tt push_update (0 : 'M[rat]_(1, 1))
          (unit_model 1) 0 1 3 (still_draws 1 1 1 0) half_start =
        Some (Raise ZeroDivisionError)].
Proof.
have [stddev eq_stddev] :
    exists stddev : 'rV[rat]_1, stddev_of 1 (Scalar 1) = Return stddev.
  by eexists.
have [eq_sfw eq_call] :=
  @sample_maximizers_no_feature rat idfun idfun unit tt 1 2 1 1 push_update 0
    (Scalar 1) stddev 0 (fun _ => 1%:M) 0 1 3 (still_draws 1 1 1 0)
    half_start eq_stddev.
by exists stddev; split; [exact: eq_stddev | exact: eq_sfw | exact: eq_call].
Defined.

(** X9 for [d = 6] and two sub-kernels. *)
Lemma build_lengthscales_too_few_kernels_witness :
  [/\ (size scalar_kernels < 6 %/ 2)%N,
      forall i, (i < size scalar_kernels)%N ->
        sub_lengthscale scalar_kernels i = Return (nth 0 [:: 1; 2] i)
    & build_lengthscales (Product scalar_kernels) 6 = Raise IndexError].
Proof.
split; [by [] | exact: scalar_kernels_sub |].
exact: (@build_lengthscales_too_few_kernels rat (nth 0 [:: 1; 2]) 6
          scalar_kernels isT scalar_kernels_sub).
Defined.

(** X10 for [d = 2] and one sub-kernel with three lengthscales. *)
Lemma build_lengthscales_array_lengthscale_witness :
  (1 < 2)%N /\
  build_lengthscales
    (Product [:: Stationary (Vector [:: 1; 2; 3 : rat])]) 2 =
  Raise ValueError.
Proof.
split; first by [].
exact: (@build_lengthscales_array_lengthscale rat 2 1 2 [:: 3] [::] isT).
Defined.

(** X11 for [d = 5] and two sub-kernels. *)
Lemma build_lengthscales_odd_dimension_witness :
  [/\ odd 5,
      forall i, (i < 5 %/ 2)%N ->
        sub_lengthscale scalar_kernels i = Return (nth 0 [:: 1; 2] i)
    & exists lengthscales : seq rat,
        [/\ build_lengthscales (Product scalar_kernels) 5 =
            Return (Vector lengthscales),
            size lengthscales = 5%N
          & nth 0 lengthscales 4 = 0]].
Proof.
split; [by [] | exact: scalar_kernels_sub |].
exact: (@build_lengthscales_odd_dimension rat (nth 0 [:: 1; 2]) 5
          scalar_kernels isT scalar_kernels_sub).
Defined.

(** X12 on a loop of three iterations with one feature. *)
Lemma optimization_loop_zero_theta_witness :
  (0 < 1)%N /\
  exists st',
    optimization_loop push_update 0 1
      (construct_maximizer_objective idfun idfun (origin 1 1 1)
         (origin 1 1 1) (fun _ => 0)) 3
      (LoopState tt half_start 0 0 false) = Return st' /\
    updates st' = 3%N.
Proof.
split; first by [].
exact: (@optimization_loop_zero_theta rat idfun idfun unit 1 2 1 1
          push_update 0 1 (origin 1 1 1) (origin 1 1 1) tt half_start 3 isT).
Defined.

Local Notation far_call min_val max_val num_steps :=
  (sample_maximizers idfun idfun tt push_update (0 : 'M[rat]_(1, 1))
     (unit_model 1) min_val max_val num_steps late_draws far_start).

Lemma far_call_returns (min_val max_val : rat) (num_steps : nat) :
  exists maximizers,
    far_call min_val max_val num_steps = Some (Return maximizers).
Proof.
have [[[[phi W] b] theta] eq_sfw] := late_draws_sampled.
exact: (sample_maximizers_returns push_update min_val max_val tt num_steps
          far_start eq_sfw).
Qed.

(** X13 on a call whose two candidates start at [5], outside the box
    [[0, 1]]. *)
Lemma sample_maximizers_in_box_after_update_witness :
  exists maximizers,
    [/\ (0 : rat) <= 1, (0 < 3)%N, far_call 0 1 3 = Some (Return maximizers)
      & forall c k, 0 <= maximizers c k <= 1].
Proof.
have [maximizers eq_call] := far_call_returns 0 1 3.
have ordered : (0 : rat) <= 1 by [].
exists maximizers; split; [exact: ordered | by [] | exact: eq_call |].
exact: (sample_maximizers_in_box_after_update ordered (isT : (0 < 3)%N)
          eq_call).
Defined.

(** X14 on the same call with the bounds [min_val = 1] and [max_val = 0]. *)
Lemma sample_maximizers_empty_box_witness :
  exists maximizers,
    [/\ (0 : rat) < 1, (0 < 3)%N, far_call 1 0 3 = Some (Return maximizers)
      & forall c k, maximizers c k = 1].
Proof.
have [maximizers eq_call] := far_call_returns 1 0 3.
have empty : (0 : rat) < 1 by [].
exists maximizers; split; [exact: empty | by [] | exact: eq_call |].
exact: (sample_maximizers_empty_box empty (isT : (0 < 3)%N) eq_call).
Defined.

(** X15 on a call without candidate. *)
Lemma sample_maximizers_no_candidate_witness :
  exists res,
    sample_features_weights idfun idfun (fun _ => 0 : 'M[rat]_(1, 1))
      (unit_model 1) 1 late_draws = Some (2%N, Return res) /\
    sample_maximizers idfun idfun tt idle_update (0 : 'M[rat]_(1, 1))
      (unit_model 1) 0 1 3 late_draws (origin 1 0 1) =
    Some (Raise InvalidArgumentError).
Proof.
have [res eq_sfw] := late_draws_sampled.
exists res; split; first exact: eq_sfw.
exact: (sample_maximizers_no_candidate tt 0 1 idle_update 3 (origin 1 0 1)
          eq_sfw).
Defined.

(** X16 on a call without iteration. *)
Lemma sample_maximizers_no_step_witness :
  exists maximizers,
    far_call 0 1 0 = Some (Return maximizers) /\
    forall c, exists j : 'I_2, forall k, maximizers c k = far_start c j k.
Proof.
have [maximizers eq_call] := far_call_returns 0 1 0.
exists maximizers; split; first exact: eq_call.
exact: (sample_maximizers_no_step eq_call).
Defined.
(** X17 on one query with the candidates [[5]] and [[3]]: the second one is
    returned. *)
Lemma objective_get_y_rank3_witness :
  [/\ shape one_pair = [:: 1; 2; 1]%N, (0 < 2)%N
    & exists y,
        [/\ objective_get_y one_pair (pointwise first_coordinate) = Return y,
            shape y = [:: 1; 1]%N
          & item y [:: 0; 0]%N = 3]].
Proof.
split; [by [] | by [] |].
have [y [eq_y shape_y chosen]] :=
  @objective_get_y_rank3 _ first_coordinate one_pair 1 2 1 (erefl _) isT.
exists y; split; [exact: eq_y | exact: shape_y |].
have [j [j_lt read lowest _]] := chosen 0%N isT.
rewrite (read 0%N isT).
case: j j_lt lowest {read} => [|[|j]] // _ lowest.
by have := lowest 1%N isT.
Defined.

(** X18 on a batch of shape [(2, 1)]. *)
Lemma objective_get_y_single_query_witness :
  ndim one_query = 2%N /\
  objective_get_y one_query (pointwise first_coordinate) = Raise AxisError.
Proof.
split; first by [].
exact: (@objective_get_y_single_query _ first_coordinate one_query (erefl _)).
Defined.

(** X19 on a batch of shape [(1, 0, 1)]. *)
Lemma objective_get_y_no_choice_witness :
  shape no_choice = [:: 1; 0; 1]%N /\
  objective_get_y no_choice (pointwise first_coordinate) = Raise ValueError.
Proof.
split; first by [].
exact: (@objective_get_y_no_choice _ first_coordinate no_choice 1 1 (erefl _)).
Defined.

(** X20 with an objective that keeps the last axis at length [1]. *)
Lemma objective_get_y_trailing_axis_witness :
  [/\ shape one_pair = [:: 1; 2; 1]%N,
      shape (expand_dims_last (pointwise first_coordinate one_pair)) =
      [:: 1; 2; 1]%N,
      (0 < 2)%N
    & objective_get_y one_pair
        (fun x => expand_dims_last (pointwise first_coordinate x)) =
      Raise ValueError].
Proof.
split; [by [] | by [] | by [] |].
exact: (@objective_get_y_trailing_axis _ one_pair
          (fun x => expand_dims_last (pointwise first_coordinate x)) 1 2 1
          (erefl _) (erefl _) isT).
Defined.

(** X21 at the point [[1/2]], with the constant [0] for [sin]. *)
Lemma forrester_range_witness :
  [/\ forall v : rat, `|(fun _ : rat => 0 : rat) v| <= 1,
      (0 < ndim half_point)%N, (0 < last 0 (shape half_point))%N
    & exists y,
        [/\ forrester (fun _ => 0) half_point = Return y, shape y = [::]
          & - 16 <= item y [::] <= 16]].
Proof.
have sin_le1 (v : rat) : `|(fun _ : rat => 0 : rat) v| <= 1 by [].
split; [exact: sin_le1 | by [] | by [] |].
have [y [eq_y shape_y bounds]] :=
  @forrester_range rat (fun _ => 0) half_point sin_le1 isT isT.
exists y; split; [exact: eq_y | exact: shape_y |].
by apply: bounds.
Defined.

(** X22 at the point [[1, 2]]. *)
Lemma six_hump_camel_even_witness :
  exists y y',
    [/\ six_hump_camel camel_point = Return y,
        six_hump_camel (negative camel_point) = Return y',
        shape y' = shape y
      & forall idx, item y' idx = item y idx].
Proof.
have [y eq_y] : exists y, six_hump_camel camel_point = Return y by eexists.
have [y' [eq_y' shape_y' items]] := six_hump_camel_even eq_y.
by exists y, y'; split; [exact: eq_y | exact: eq_y' | exact: shape_y' |].
Defined.

(** X23 at the point [[0, 0, 0]], with the constant [1] for [exp]. *)
Lemma hartmann3d_range_witness :
  [/\ forall v : rat, 0 < (fun _ : rat => 1 : rat) v,
      forall v : rat, v <= 0 -> (fun _ : rat => 1 : rat) v <= 1,
      (0 < ndim corner)%N, last 0%N (shape corner) = 3%N
    & exists y,
        [/\ hartmann3d (fun _ => 1) corner = Return y, shape y = [::]
          & forall idx, - (1 + 12 / 10 + 3 + 32 / 10) <= item y idx < 0]].
Proof.
have exp_gt0 (v : rat) : 0 < (fun _ : rat => 1 : rat) v by [].
have exp_le1 (v : rat) : v <= 0 -> (fun _ : rat => 1 : rat) v <= 1 by [].
split; [exact: exp_gt0 | exact: exp_le1 | by [] | by [] |].
exact: (@hartmann3d_range rat (fun _ => 1) corner exp_gt0 exp_le1 isT
          (erefl _)).
Defined.

(** The only point of [listed] is the key of [menu]; the only point of
    [unlisted] is no key. *)
Lemma listed_found (idx : seq nat) :
  idx \in all_indices (leading_shape listed) ->
  menu (point_at listed idx) = Some 5.
Proof. by []. Qed.

Lemma unlisted_missing : menu (point_at unlisted [:: 0%N]) = None.
Proof. by []. Qed.

(** X24 on a batch holding the key of the dictionary. *)
Lemma sushi_found_witness :
  [/\ (0 < ndim listed)%N, (0 < last 0 (shape listed))%N,
      forall idx, idx \in all_indices (leading_shape listed) ->
        menu (point_at listed idx) = Some 5
    & exists y,
        [/\ sushi listed menu = inr y, shape y = [:: 1%N]
          & item y [:: 0%N] = - 5]].
Proof.
split; [by [] | by [] | exact: listed_found |].
have [y [eq_y shape_y items]] :=
  @sushi_found rat menu listed (fun _ => 5) isT isT listed_found.
exists y; split; [exact: eq_y | exact: shape_y |].
exact: (items [:: 0%N] isT).
Defined.

(** X25 on a batch holding a point that is no key. *)
Lemma sushi_missing_witness :
  [/\ (0 < ndim unlisted)%N, (0 < last 0 (shape unlisted))%N,
      [:: 0%N] \in all_indices (leading_shape unlisted),
      menu (point_at unlisted [:: 0%N]) = None
    & sushi unlisted menu = inl KeyError].
Proof.
split; [by [] | by [] | by [] | exact: unlisted_missing |].
exact: (@sushi_missing rat menu unlisted [:: 0%N] isT isT isT
          unlisted_missing).
Defined.
